(** * netlify-cms-lib-util, [src/API.ts]: request backoff and read-through cache

    A shallow embedding of [requestWithBackoff], [readFile] and
    [readFileMetadata], and the properties of the specification proved (or
    refuted) on it.

    The asynchronous code is embedded in a state-and-exception monad over a
    [World] that holds what the code shares and mutates: the handle's
    [rateLimiter] field, the lock objects it points to, the pending
    [setTimeout] callbacks, a virtual clock, and the trace of calls made to
    the collaborators (decorator, transport, console, timers).  A caller that
    awaits a promise which is not settled yet hands control to the event
    loop, which fires the pending timers in order of their due time. *)

From stdpp Require Import base strings list gmap pretty.
From Equations Require Import Equations.
From Stdlib Require Import ZArith Lia.

Local Open Scope Z_scope.

(** ** Data model (lines 29-48) *)

Inductive ParamValue :=
| PString (s : string)
| PBool (b : bool)
| PNumber (n : Z).

Inductive Method := POST | PUT | DELETE | HEAD.

Inductive Body :=
| BodyString (s : string)
| BodyFormData (fields : list (string * string)).

Inductive CacheMode := NoStore.

Record ApiRequestObject := {
  url : string;
  params : option (gmap string ParamValue);
  method : option Method;
  headers : option (gmap string string);
  body : option Body;
  cache : option CacheMode;
}.

(** [type ApiRequest = ApiRequestObject | string] *)
Inductive ApiRequest :=
| ReqObject (o : ApiRequestObject)
| ReqString (s : string).

(** The part of a fetch [Response] the module looks at: the status code and
    what [response.text()] settles to ([None]: reading the body rejects). *)
Record Response := {
  status : Z;
  text : option string;
}.

(** Values that travel on the exception channel: the [Error] built at line 65
    and whatever the transport rejected with. *)
Inductive Thrown :=
| NewError (msg : string)
| TransportFailure (msg : string).

Definition message (e : Thrown) : string :=
  match e with
  | NewError m => m
  | TransportFailure m => m
  end.

(** What one call of the transport settles to. *)
Inductive Outcome :=
| Rejects (e : Thrown)
| Resolves (r : Response).

(** The collaborators are JavaScript functions: what they answer may depend
    on state outside this module (the network, the current credentials).
    Each takes the number of calls made to it before as a first argument. *)
Definition Transport := nat -> ApiRequest -> Outcome.
Definition Decorator := nat -> ApiRequest -> ApiRequest.

(** [interface API], lines 33-37: the two function-valued fields.  The module never
    assigns them; the field it does assign, [rateLimiter], lives in the
    [World] below. *)
Record API := {
  buildRequest : Decorator;
  requestFunction : option Transport;
}.

(** ** The world: handle state, locks, timers, clock, trace *)

Definition LockId := nat.

(** Modelled from the spec: [asyncLock.ts] is imported at line 1 and is not
    part of the sources.  Section 4.1 gives the contract: a lock is locked or
    unlocked and has a FIFO queue of waiters; [acquire] on a free lock marks
    it held at once, on a held lock it queues the caller; [release] hands the
    lock to the next waiter if there is one, marks it free otherwise, and is a
    no-op on a free lock.  Waiters are the tickets of pending [acquire]
    promises. *)
Record AsyncLock := {
  held : bool;
  waiters : list nat;
}.

Inductive Event :=
| EvBuildRequest (n : nat) (req : ApiRequest) (* api.buildRequest(req), line 60 *)
| EvRequest (n : nat) (built : ApiRequest)    (* requestFunction(builtRequest), line 62 *)
| EvText (r : Response)                       (* response.text(), line 64 *)
| EvLog (args : list string)                  (* console.log, lines 72 and 84 *)
| EvAsyncLock (l : LockId)                    (* asyncLock(), line 79 *)
| EvAcquire (l : LockId)                      (* acquire(), lines 56 and 80 *)
| EvRelease (l : LockId)                      (* release(), line 82 *)
| EvSetTimeout (ms : Z)                       (* setTimeout(_, ms), line 81 *)
| EvTimer (due : Z).                          (* the event loop runs a timer callback *)

Record World := {
  rateLimiter : option LockId;  (* api.rateLimiter *)
  locks : list AsyncLock;       (* the lock objects created so far *)
  tickets : nat;                (* next fresh ticket for a queued acquire *)
  timers : list Z;              (* due times of the pending callbacks, in registration order *)
  now : Z;                      (* virtual clock, in milliseconds *)
  decorated : nat;              (* number of calls of the decorator so far *)
  requests : nat;               (* number of requests dispatched so far *)
  trace : list Event;           (* calls made so far, oldest first *)
}.

Definition set_rateLimiter (v : option LockId) (w : World) : World :=
  {| rateLimiter := v; locks := locks w; tickets := tickets w; timers := timers w;
     now := now w; decorated := decorated w; requests := requests w; trace := trace w |}.

Definition set_locks (v : list AsyncLock) (w : World) : World :=
  {| rateLimiter := rateLimiter w; locks := v; tickets := tickets w; timers := timers w;
     now := now w; decorated := decorated w; requests := requests w; trace := trace w |}.

Definition set_tickets (v : nat) (w : World) : World :=
  {| rateLimiter := rateLimiter w; locks := locks w; tickets := v; timers := timers w;
     now := now w; decorated := decorated w; requests := requests w; trace := trace w |}.

Definition set_timers (v : list Z) (w : World) : World :=
  {| rateLimiter := rateLimiter w; locks := locks w; tickets := tickets w; timers := v;
     now := now w; decorated := decorated w; requests := requests w; trace := trace w |}.

Definition set_now (v : Z) (w : World) : World :=
  {| rateLimiter := rateLimiter w; locks := locks w; tickets := tickets w; timers := timers w;
     now := v; decorated := decorated w; requests := requests w; trace := trace w |}.

Definition set_decorated (v : nat) (w : World) : World :=
  {| rateLimiter := rateLimiter w; locks := locks w; tickets := tickets w; timers := timers w;
     now := now w; decorated := v; requests := requests w; trace := trace w |}.

Definition set_requests (v : nat) (w : World) : World :=
  {| rateLimiter := rateLimiter w; locks := locks w; tickets := tickets w; timers := timers w;
     now := now w; decorated := decorated w; requests := v; trace := trace w |}.

Definition emit (e : Event) (w : World) : World :=
  {| rateLimiter := rateLimiter w; locks := locks w; tickets := tickets w; timers := timers w;
     now := now w; decorated := decorated w; requests := requests w; trace := trace w ++ [e] |}.

(** ** The monad of asynchronous computations *)

(** How a promise ends: fulfilled, rejected, or never settled. *)
Inductive Completion (A : Type) :=
| Returned (a : A)
| Threw (e : Thrown)
| Pending.
Arguments Returned {A} a.
Arguments Threw {A} e.
Arguments Pending {A}.

(** An asynchronous computation over a state of type [S]. *)
Definition AsyncOn (S A : Type) : Type := S -> Completion A * S.

Definition ret {S A} (a : A) : AsyncOn S A := fun w => (Returned a, w).

Definition throw {S A} (e : Thrown) : AsyncOn S A := fun w => (Threw e, w).

Definition bind {S A B} (m : AsyncOn S A) (k : A -> AsyncOn S B) : AsyncOn S B :=
  fun w =>
    match m w with
    | (Returned a, w') => k a w'
    | (Threw e, w') => (Threw e, w')
    | (Pending, w') => (Pending, w')
    end.

(** [try { body } catch (err) { handler }] *)
Definition try_catch {S A} (body : AsyncOn S A) (handler : Thrown -> AsyncOn S A) : AsyncOn S A :=
  fun w =>
    match body w with
    | (Threw e, w') => handler e w'
    | r => r
    end.

(** A synchronous effect on the state. *)
Definition effect {S} (f : S -> S) : AsyncOn S unit := fun w => (Returned tt, f w).

Definition read {S A} (f : S -> A) : AsyncOn S A := fun w => (Returned (f w), w).

(** The dispatcher runs over the [World]. *)
Abbreviation Async := (AsyncOn World).

Declare Scope async_scope.
Delimit Scope async_scope with async.
Notation "x <- c1 ;; c2" := (bind c1 (fun x => c2))
  (at level 100, c1 at next level, right associativity) : async_scope.
Notation "c1 ;; c2" := (bind c1 (fun _ => c2))
  (at level 100, right associativity) : async_scope.
Local Open Scope async_scope.

(** ** Locks *)

Definition free_lock : AsyncLock := {| held := false; waiters := [] |}.

(** Modelled from the spec: [asyncLock()] of [asyncLock.ts] makes a fresh
    lock object, free and without waiters; its reference is its index. *)
Definition asyncLock : Async LockId :=
  fun w =>
    let l := length (locks w) in
    (Returned l, emit (EvAsyncLock l) (set_locks (locks w ++ [free_lock]) w)).

(** The promise returned by [acquire()]: already fulfilled, or waiting in the
    queue of lock [l] under ticket [t]. *)
Inductive Promise :=
| Fulfilled
| Queued (l : LockId) (t : nat).

(** Modelled from the spec: the synchronous part of [acquire()] of
    [asyncLock.ts].  A free lock is marked held and the promise returned is
    fulfilled; a held lock queues the caller.  A reference that points to no
    lock object cannot arise (references are only made by [asyncLock]); the
    call is then without effect. *)
Definition acquire (l : LockId) : Async Promise :=
  fun w =>
    let w1 := emit (EvAcquire l) w in
    match locks w !! l with
    | Some lk =>
        if held lk then
          let t := tickets w in
          (Returned (Queued l t),
           set_tickets (S t)
             (set_locks (<[l := {| held := true; waiters := waiters lk ++ [t] |}]> (locks w)) w1))
        else
          (Returned Fulfilled,
           set_locks (<[l := {| held := true; waiters := waiters lk |}]> (locks w)) w1)
    | None => (Returned Fulfilled, w1)
    end.

(** Modelled from the spec: [release()] of [asyncLock.ts] hands the lock to
    the first waiter, or marks it free when nobody waits. *)
Definition release (l : LockId) (w : World) : World :=
  let w1 := emit (EvRelease l) w in
  match locks w !! l with
  | Some lk =>
      match waiters lk with
      | _ :: rest => set_locks (<[l := {| held := true; waiters := rest |}]> (locks w)) w1
      | [] => set_locks (<[l := {| held := false; waiters := [] |}]> (locks w)) w1
      end
  | None => w1
  end.

(** ** Timers and the event loop *)

(** The callback passed to [setTimeout] at lines 81-85.  It closes over the
    handle, not over the lock it was created with: it releases whatever lock
    the handle holds when it runs. *)
Definition cooldown_expired (w : World) : World :=
  let w1 := match rateLimiter w with
            | Some l => release l w
            | None => w
            end in
  emit (EvLog ["Done pausing requests"]) (set_rateLimiter None w1).

(** Position of the timer that fires next: the least due time, the earliest
    registered among equals. *)
Fixpoint next_timer (ts : list Z) : option (nat * Z) :=
  match ts with
  | [] => None
  | t :: rest =>
      match next_timer rest with
      | Some (i, u) => if u <? t then Some (S i, u) else Some (O, t)
      | None => Some (O, t)
      end
  end.

(** One turn of the event loop: run the next timer callback, the clock
    moving to its due time. *)
Definition fire_timer (w : World) : option World :=
  match next_timer (timers w) with
  | Some (i, due) =>
      Some (cooldown_expired
              (emit (EvTimer due)
                 (set_now (Z.max (now w) due) (set_timers (delete i (timers w)) w))))
  | None => None
  end.

Definition settled (p : Promise) (w : World) : bool :=
  match p with
  | Fulfilled => true
  | Queued l t =>
      match locks w !! l with
      | Some lk => bool_decide (t ∉ waiters lk)
      | None => true
      end
  end.

(** [await p] for the only caller in flight: while [p] is not settled the
    event loop runs the pending timers; when none is left, [p] never
    settles.  [fuel] bounds the number of timers fired. *)
Fixpoint await_for (fuel : nat) (p : Promise) (w : World) : Completion unit * World :=
  if settled p w then (Returned tt, w)
  else
    match fuel with
    | O => (Pending, w)
    | S fuel' =>
        match fire_timer w with
        | Some w' => await_for fuel' p w'
        | None => (Pending, w)
        end
    end.

(** A timer callback registers no timer, so the pending ones suffice as fuel. *)
Definition await (p : Promise) : Async unit :=
  fun w => await_for (length (timers w)) p w.

(** [setTimeout(cooldown_expired, ms)]; a negative delay counts as zero. *)
Definition setTimeout (ms : Z) : Async unit :=
  effect (fun w => emit (EvSetTimeout ms) (set_timers (timers w ++ [now w + Z.max 0 ms]) w)).

Definition console_log (args : list string) : Async unit :=
  effect (emit (EvLog args)).

(** ** [requestWithBackoff] (lines 50-92) *)

Section Dispatcher.

(** [unsentRequest.performRequest], the default transport (imported at
    line 2). *)
Variable performRequest : Transport.

(** [await requestFunction(builtRequest)].  The virtual clock stands still
    while a request is in flight: the answer comes before any timer runs. *)
Definition dispatch (f : Transport) (built : ApiRequest) : Async Response :=
  fun w =>
    let n := requests w in
    let w' := emit (EvRequest n built) (set_requests (S n) w) in
    match f n built with
    | Resolves r => (Returned r, w')
    | Rejects e => (Threw e, w')
    end.

(** [await response.text().catch(() => 'Too many requests')] *)
Definition text_or_fallback (response : Response) : Async string :=
  fun w =>
    (Returned (default "Too many requests" (text response)), emit (EvText response) w).

(** [api.buildRequest(req)] *)
Definition decorate (api : API) (req : ApiRequest) : Async ApiRequest :=
  fun w =>
    let n := decorated w in
    (Returned (buildRequest api n req), emit (EvBuildRequest n req) (set_decorated (S n) w)).

(** The [try] block, lines 60-67. *)
Definition try_block (api : API) (req : ApiRequest) : Async Response :=
  builtRequest <- decorate api req ;;
  let requestFunction := default performRequest (requestFunction api) in
  response <- dispatch requestFunction builtRequest ;;
  if status response =? 429 then
    text <- text_or_fallback response ;;
    throw (NewError text)
  else ret response.

(** Lines 70-86: install a cooldown unless the handle already has one. *)
Definition pause_requests (attempt : Z) (err : Thrown) : Async unit :=
  rl <- read rateLimiter ;;
  match rl with
  | Some _ => ret tt
  | None =>
      let timeout := attempt * attempt in
      _ <- console_log
             ["Pausing requests for " +:+ pretty timeout +:+ " " +:+
                (if attempt =? 1 then "second" else "seconds") +:+
                " due to fetch failures:";
              message err] ;;
      l <- asyncLock ;;
      _ <- effect (set_rateLimiter (Some l)) ;;
      _ <- acquire l ;;
      setTimeout (1000 * timeout)
  end.

(** Lines 55-57. *)
Definition wait_for_rateLimiter : Async unit :=
  rl <- read rateLimiter ;;
  match rl with
  | Some l => p <- acquire l ;; await p
  | None => ret tt
  end.

(** The attempt counter is a JavaScript number; the callers pass integers
    (1 by default), and [Z] stands for those: sums and squares of small
    integers are exact in a double.  The recursion ends because each call
    that recurses has [attempt <= 5] and passes [attempt + 1]. *)
Equations? (noeqns noind) requestWithBackoff (api : API) (req : ApiRequest) (attempt : Z)
  : Async Response by wf (Z.to_nat (6 - attempt)) lt :=
requestWithBackoff api req attempt :=
  _ <- wait_for_rateLimiter ;;
  try_catch (try_block api req)
    (fun err =>
       match Z_le_gt_dec attempt 5 with
       | left _ =>
           _ <- pause_requests attempt err ;;
           requestWithBackoff api req (attempt + 1)
       | right _ => throw err
       end).
Proof. lia. Qed.

End Dispatcher.

(** ** Read-through cache (lines 94-134) *)

(** [string | Blob] *)
Inductive Content :=
| Text (s : string)
| Blob (bytes : list Byte.byte).

(** [type FileMetadata] *)
Record FileMetadata := {
  author : string;
  updatedOn : string;
}.

(** What the store can hold and [getItem] can give back. *)
Inductive Value :=
| Null
| OfContent (c : Content)
| OfMetadata (m : FileMetadata).

(** JavaScript truthiness, as the tests [if (cached)] apply it: [null] and
    the empty string are falsy, every object is truthy. *)
Definition truthy (v : Value) : bool :=
  match v with
  | Null => false
  | OfContent (Text s) => negb (String.eqb s "")
  | OfContent (Blob _) => true
  | OfMetadata _ => true
  end.

(** [id: string | null | undefined] *)
Inductive MaybeId :=
| IdNull
| IdUndefined
| Id (s : string).

Definition truthy_id (id : MaybeId) : bool :=
  match id with
  | Id s => negb (String.eqb s "")
  | IdNull | IdUndefined => false
  end.

Inductive StoreCall :=
| GetItem (key : string)
| SetItem (key : string) (v : Value)
| Fetch.

(** The store (a [LocalForage] instance) as a finite map that answers every
    call, and the calls made to it and to the fetch function, oldest first. *)
Record Cache := {
  store : gmap string Value;
  calls : list StoreCall;
}.

Definition called (c : StoreCall) (s : Cache) : Cache :=
  {| store := store s; calls := calls s ++ [c] |}.

(** [await localForage.getItem(key)]: [null] when the key is not there. *)
Definition getItem (key : string) : AsyncOn Cache Value :=
  fun s => (Returned (default Null (store s !! key)), called (GetItem key) s).

(** [await localForage.setItem(key, value)] *)
Definition setItem (key : string) (v : Value) : AsyncOn Cache unit :=
  fun s => (Returned tt, {| store := <[key := v]> (store s); calls := calls s ++ [SetItem key v] |}).

(** [await fetch()], for a fetch function whose promise ends as [outcome]. *)
Definition invoke {A} (outcome : Completion A) : AsyncOn Cache A :=
  fun s => (outcome, called Fetch s).

Definition textKey (id : string) : string := "gh." +:+ id.
Definition blobKey (id : string) : string := "gh." +:+ id +:+ ".blob".

(** Line 100: [id ? (isText ? `gh.${id}` : `gh.${id}.blob`) : null].  The
    test is on the truthiness of [id]: the empty string has no key either. *)
Definition readFile_key (id : MaybeId) (isText : bool) : option string :=
  match id with
  | Id s => if truthy_id id then Some (if isText then textKey s else blobKey s) else None
  | IdNull | IdUndefined => None
  end.

Definition readFile (id : MaybeId) (fetchContent : Completion Content) (isText : bool)
  : AsyncOn Cache Value :=
  let key := readFile_key id isText in
  cached <- match key with
            | Some k => getItem k
            | None => ret Null
            end ;;
  if truthy cached then ret cached
  else
    content <- invoke fetchContent ;;
    _ <- match key with
         | Some k => setItem k (OfContent content)
         | None => ret tt
         end ;;
    ret (OfContent content).

(** Line 118 *)
Definition getFileMetadataKey (id : string) : string := "gh." +:+ id +:+ ".meta".

Definition readFileMetadata (id : string) (fetchMetadata : Completion FileMetadata)
  : AsyncOn Cache Value :=
  let key := getFileMetadataKey id in
  cached <- getItem key ;;
  if truthy cached then ret cached
  else
    metadata <- invoke fetchMetadata ;;
    _ <- setItem key (OfMetadata metadata) ;;
    ret (OfMetadata metadata).

(** What the caller of [readFile] gets when the fetch ends as [c]. *)
Definition fetched {A} (inj : A -> Value) (c : Completion A) : Completion Value :=
  match c with
  | Returned a => Returned (inj a)
  | Threw e => Threw e
  | Pending => Pending
  end.

(** [n] calls of [readFile] in a row, each with a fetch function that
    resolves with [content]; the state they leave. *)
Fixpoint readFile_repeatedly (n : nat) (id : MaybeId) (content : Content) (isText : bool)
    (s : Cache) : Cache :=
  match n with
  | O => s
  | S n' => readFile_repeatedly n' id content isText
              (snd (readFile id (Returned content) isText s))
  end.

Definition cache0 : Cache := {| store := ∅; calls := [] |}.

(** ** Observations *)

(** The delays of the timers registered, in order. *)
Definition timeouts (tr : list Event) : list Z :=
  omap (fun e => match e with EvSetTimeout ms => Some ms | _ => None end) tr.

(** The lock objects created, in order. *)
Definition locks_made (tr : list Event) : list LockId :=
  omap (fun e => match e with EvAsyncLock l => Some l | _ => None end) tr.

(** The descriptors handed to the decorator, in order. *)
Definition decorations (tr : list Event) : list ApiRequest :=
  omap (fun e => match e with EvBuildRequest _ r => Some r | _ => None end) tr.

(** The descriptors handed to the transport, in order. *)
Definition dispatched (tr : list Event) : list ApiRequest :=
  omap (fun e => match e with EvRequest _ b => Some b | _ => None end) tr.

(** Whether no timer is registered while another one is pending; [pending]
    tells whether one is at the start, the result whether one is at the
    end. *)
Fixpoint one_at_a_time (pending : bool) (tr : list Event) : option bool :=
  match tr with
  | [] => Some pending
  | EvSetTimeout _ :: tr' => if pending then None else one_at_a_time true tr'
  | EvTimer _ :: tr' => one_at_a_time false tr'
  | _ :: tr' => one_at_a_time pending tr'
  end.

(** The events emitted between world [w] and a later world [w']. *)
Definition since (w w' : World) : list Event := drop (length (trace w)) (trace w').

(** No cooldown is active on the handle and no timer is pending. *)
Definition idle (w : World) : Prop := rateLimiter w = None /\ timers w = [].

(** An outcome that makes an attempt fail: a rejection, or the provider's
    429 (line 63). *)
Definition fails (o : Outcome) : bool :=
  match o with
  | Rejects _ => true
  | Resolves r => status r =? 429
  end.

(** The value that reaches the [catch] clause for a failing outcome. *)
Definition error_of (o : Outcome) : Thrown :=
  match o with
  | Rejects e => e
  | Resolves r => NewError (default "Too many requests" (text r))
  end.

(** Quadratic backoff: the delays after failures at attempts [a], [a+1],
    ..., [k] of them. *)
Fixpoint backoff (a : Z) (k : nat) : list Z :=
  match k with
  | O => []
  | S k' => 1000 * (a * a) :: backoff (a + 1) k'
  end.

Section Runs.

Variable performRequest : Transport.
Variable api : API.
Variable req : ApiRequest.

Definition transport : Transport := default performRequest (requestFunction api).

(** What the transport answers to the [i]-th attempt made from [w] on. *)
Definition answer (w : World) (i : nat) : Outcome :=
  transport (requests w + i)%nat (buildRequest api (decorated w + i)%nat req).

(** The world right after lines 71-85 ran for a failure at [attempt]: the
    cooldown is installed and its timer pending. *)
Definition paused (attempt : Z) (err : Thrown) (w : World) : World :=
  let l := length (locks w) in
  {| rateLimiter := Some l;
     locks := locks w ++ [{| held := true; waiters := [] |}];
     tickets := tickets w;
     timers := timers w ++ [now w + 1000 * (attempt * attempt)];
     now := now w;
     decorated := decorated w;
     requests := requests w;
     trace := trace w ++
       [EvLog ["Pausing requests for " +:+ pretty (attempt * attempt) +:+ " " +:+
                 (if attempt =? 1 then "second" else "seconds") +:+
                 " due to fetch failures:";
               message err];
        EvAsyncLock l; EvAcquire l; EvSetTimeout (1000 * (attempt * attempt))] |}.

(** Events of a failed attempt and of the cooldown that follows it. *)
Definition failure_events (attempt : Z) (w : World) : list Event :=
  let l := length (locks w) in
  let o := answer w 0 in
  [EvBuildRequest (decorated w) req;
   EvRequest (requests w) (buildRequest api (decorated w) req)] ++
  match o with Resolves r => [EvText r] | Rejects _ => [] end ++
  [EvLog ["Pausing requests for " +:+ pretty (attempt * attempt) +:+ " " +:+
            (if attempt =? 1 then "second" else "seconds") +:+
            " due to fetch failures:";
          message (error_of o)];
   EvAsyncLock l; EvAcquire l; EvSetTimeout (1000 * (attempt * attempt));
   EvAcquire l; EvTimer (now w + 1000 * (attempt * attempt)); EvRelease l;
   EvLog ["Done pausing requests"]].

(** The world in which the next attempt starts. *)
Definition after_failure (attempt : Z) (w : World) : World :=
  {| rateLimiter := None;
     locks := locks w ++ [{| held := true; waiters := [] |}];
     tickets := S (tickets w);
     timers := [];
     now := now w + 1000 * (attempt * attempt);
     decorated := S (decorated w);
     requests := S (requests w);
     trace := trace w ++ failure_events attempt w |}.

Fixpoint after_failures (k : nat) (attempt : Z) (w : World) : World :=
  match k with
  | O => w
  | S k' => after_failures k' (attempt + 1) (after_failure attempt w)
  end.

(** The world after an attempt that is not retried. *)
Definition after_last (w : World) : World :=
  {| rateLimiter := rateLimiter w; locks := locks w; tickets := tickets w;
     timers := timers w; now := now w;
     decorated := S (decorated w);
     requests := S (requests w);
     trace := trace w ++
       [EvBuildRequest (decorated w) req;
        EvRequest (requests w) (buildRequest api (decorated w) req)] ++
       match answer w 0 with
       | Resolves r => if status r =? 429 then [EvText r] else []
       | Rejects _ => []
       end |}.

End Runs.

(** ** Labels, content keys, branches (lines 4-27) *)

(** The string methods the module calls, on strings as sequences of code
    units, with the clamping of indices that JavaScript does. *)

Fixpoint string_drop (n : nat) (s : string) : string :=
  match n, s with
  | O, _ => s
  | S n', String _ s' => string_drop n' s'
  | S _, EmptyString => EmptyString
  end.

Fixpoint string_take (n : nat) (s : string) : string :=
  match n, s with
  | S n', String c s' => String c (string_take n' s')
  | _, _ => EmptyString
  end.

(** [s.substr(start, length)]; [None] is an omitted [length]. *)
Definition substr (s : string) (start : Z) (len : option Z) : string :=
  let size := Z.of_nat (String.length s) in
  let intStart := if start <? 0 then Z.max (size + start) 0 else Z.min start size in
  let intLength := Z.min (Z.max (default size len) 0) size in
  let intEnd := Z.min (intStart + intLength) size in
  string_take (Z.to_nat (intEnd - intStart)) (string_drop (Z.to_nat intStart) s).

(** [s.substring(start)] *)
Definition substring (s : string) (start : Z) : string :=
  let size := Z.of_nat (String.length s) in
  string_drop (Z.to_nat (Z.min (Z.max start 0) size)) s.

(** [s.startsWith(searchString)] *)
Definition startsWith (s searchString : string) : bool := String.prefix searchString s.

(** Position of the first occurrence of [pat] in [s]. *)
Fixpoint find_sub (pat s : string) : option nat :=
  if String.prefix pat s then Some O
  else match s with
       | EmptyString => None
       | String _ s' => S <$> find_sub pat s'
       end.

(** [s.indexOf(searchString)]: -1 when there is no occurrence. *)
Definition indexOf (s searchString : string) : Z :=
  match find_sub searchString s with
  | Some i => Z.of_nat i
  | None => -1
  end.

(** [s.includes(searchString)] *)
Definition includes (s searchString : string) : bool :=
  match find_sub searchString s with
  | Some _ => true
  | None => false
  end.

Definition CMS_BRANCH_PREFIX : string := "cms".

Definition NETLIFY_CMS_LABEL_PREFIX : string := "netlify-cms/".

Definition isCMSLabel (label : string) : bool := startsWith label NETLIFY_CMS_LABEL_PREFIX.

Definition labelToStatus (label : string) : string :=
  substr label (Z.of_nat (String.length NETLIFY_CMS_LABEL_PREFIX)) None.

Definition statusToLabel (status : string) : string := NETLIFY_CMS_LABEL_PREFIX +:+ status.

Definition generateContentKey (collectionName slug : string) : string :=
  collectionName +:+ "/" +:+ slug.

Record ContentKey := {
  collection : string;
  slug : string;
}.

Definition parseContentKey (contentKey : string) : ContentKey :=
  let index := indexOf contentKey "/" in
  {| collection := substr contentKey 0 (Some index);
     slug := substr contentKey (index + 1) None |}.

Definition contentKeyFromBranch (branch : string) : string :=
  substring branch (Z.of_nat (String.length (CMS_BRANCH_PREFIX +:+ "/"))).

Definition branchFromContentKey (contentKey : string) : string :=
  CMS_BRANCH_PREFIX +:+ "/" +:+ contentKey.

(** ** Deploy previews (lines 136-173) *)

Definition PREVIEW_CONTEXT_KEYWORDS : list string := ["deploy"].

(** [if (previewContext)] tests a string for truthiness: the empty string
    counts as no preview context given. *)
Definition isPreviewContext (context previewContext : string) : bool :=
  if negb (String.eqb previewContext "") then String.eqb context previewContext
  else existsb (fun keyword => includes context keyword) PREVIEW_CONTEXT_KEYWORDS.

Inductive PreviewState := Other | Success.

Record CommitStatus := {
  context : string;
  target_url : string;
  state : PreviewState;
}.

(** [statuses.find(...)]: the first match, [None] for [undefined]. *)
Definition getPreviewStatus (statuses : list CommitStatus) (previewContext : string)
  : option CommitStatus :=
  List.find (fun st => isPreviewContext (context st) previewContext) statuses.

(** ** Sample inputs *)

Definition world0 : World :=
  {| rateLimiter := None; locks := []; tickets := O; timers := []; now := 0;
     decorated := O; requests := O; trace := [] |}.

Definition ok : Response := {| status := 200; text := Some "{}" |}.

Definition not_found : Response := {| status := 404; text := Some "Not Found" |}.

Definition too_many (body : option string) : Response := {| status := 429; text := body |}.

(** A transport that rejects its first [k] calls and then answers [ok]. *)
Definition flaky (k : nat) : Transport :=
  fun n _ => if (n <? k)%nat then Rejects (TransportFailure "Failed to fetch") else Resolves ok.

(** A transport that always answers [r]. *)
Definition always (r : Response) : Transport := fun _ _ => Resolves r.

(** A handle whose decorator changes nothing. *)
Definition plain (t : Transport) : API :=
  {| buildRequest := fun _ r => r; requestFunction := Some t |}.

(** A handle whose decorator stamps each URL with the number of the call. *)
Definition stamping (t : Transport) : API :=
  {| buildRequest := fun n r =>
       match r with
       | ReqString u => ReqString (u +:+ "?try=" +:+ pretty n)
       | ReqObject o => ReqObject o
       end;
     requestFunction := Some t |}.

(** * Properties *)

(** ** The recursion equation of [requestWithBackoff] *)

Lemma requestWithBackoff_eq performRequest api req attempt :
  requestWithBackoff performRequest api req attempt =
    (_ <- wait_for_rateLimiter ;;
     try_catch (try_block performRequest api req)
       (fun err =>
          if attempt <=? 5 then
            _ <- pause_requests attempt err ;;
            requestWithBackoff performRequest api req (attempt + 1)
          else throw err)).
Proof.
  unfold requestWithBackoff at 1.
  rewrite Subterm.FixWf_unfold.
  - cbn. unfold requestWithBackoff_functional.
    destruct (Z_le_gt_dec attempt 5) as [H|H].
    + replace (attempt <=? 5) with true by (symmetry; apply Z.leb_le; lia). reflexivity.
    + replace (attempt <=? 5) with false by (symmetry; apply Z.leb_gt; lia). reflexivity.
  - intros [a [r n]] f g Hfg. unfold requestWithBackoff_functional. cbn [pr1 pr2].
    destruct (Z_le_gt_dec n 5); [|reflexivity].
    rewrite Hfg. reflexivity.
Qed.

(** ** Reasoning about worlds *)

(** Normalise nested field updates of a world given by its fields.  [lazy]
    shares the world that each update reads eight times. *)
Ltac world :=
  lazy beta iota zeta delta
    [emit set_rateLimiter set_locks set_tickets set_timers set_now
     set_decorated set_requests
     rateLimiter locks tickets timers now decorated requests trace];
  rewrite <- ?app_assoc; cbn [app].

Lemma square_delay a : Z.max 0 (1000 * (a * a)) = 1000 * (a * a).
Proof. apply Z.max_r. nia. Qed.

Lemma lookup_last_made (lk : list AsyncLock) x : (lk ++ [x]) !! length lk = Some x.
Proof. apply list_lookup_middle. reflexivity. Qed.

Lemma insert_last_made (lk : list AsyncLock) x y :
  <[length lk := y]> (lk ++ [x]) = lk ++ [y].
Proof. rewrite insert_app_r_alt by reflexivity. rewrite Nat.sub_diag. reflexivity. Qed.

Lemma since_app w w' evs : trace w' = trace w ++ evs -> since w w' = evs.
Proof. intros H. unfold since. rewrite H. apply drop_app_length. Qed.

Lemma one_at_a_time_app p tr1 tr2 :
  one_at_a_time p (tr1 ++ tr2) =
    match one_at_a_time p tr1 with
    | Some p' => one_at_a_time p' tr2
    | None => None
    end.
Proof.
  revert p. induction tr1 as [|e tr1 IH]; intros p; [reflexivity|].
  destruct e; cbn [app one_at_a_time]; try apply IH.
  destruct p; [reflexivity | apply IH].
Qed.

Lemma backoff_length a k : length (backoff a k) = k.
Proof. revert a. induction k as [|k IH]; intros a; cbn; [reflexivity | by rewrite IH]. Qed.

(** ** One attempt of [requestWithBackoff] *)

Section OneAttempt.

Variable performRequest : Transport.
Variable api : API.
Variable req : ApiRequest.

Lemma wait_no_cooldown w :
  rateLimiter w = None -> wait_for_rateLimiter w = (Returned tt, w).
Proof. intros H. unfold wait_for_rateLimiter, bind, read. by rewrite H. Qed.

Lemma requestWithBackoff_no_cooldown attempt w :
  rateLimiter w = None ->
  requestWithBackoff performRequest api req attempt w =
    try_catch (try_block performRequest api req)
      (fun err =>
         if attempt <=? 5 then
           _ <- pause_requests attempt err ;;
           requestWithBackoff performRequest api req (attempt + 1)
         else throw err) w.
Proof.
  intros H. rewrite requestWithBackoff_eq. unfold bind at 1.
  by rewrite (wait_no_cooldown w H).
Qed.

(** The [try] block: two calls, a third one to read the body of a 429. *)
Lemma try_block_run w :
  try_block performRequest api req w =
    (match answer performRequest api req w 0 with
     | Rejects e => Threw e
     | Resolves r =>
         if status r =? 429
         then Threw (NewError (default "Too many requests" (text r)))
         else Returned r
     end, after_last performRequest api req w).
Proof.
  destruct w as [rl lk tk tm nw dc rq tr].
  unfold try_block, after_last, answer, transport, bind, decorate, dispatch,
    text_or_fallback, throw, ret.
  world. rewrite !Nat.add_0_r.
  destruct (default performRequest (requestFunction api) rq (buildRequest api dc req))
    as [e|r].
  - world. reflexivity.
  - destruct (status r =? 429); world; reflexivity.
Qed.

Lemma try_block_fails w :
  fails (answer performRequest api req w 0) = true ->
  try_block performRequest api req w =
    (Threw (error_of (answer performRequest api req w 0)),
     after_last performRequest api req w).
Proof.
  intros H. rewrite try_block_run.
  destruct (answer performRequest api req w 0) as [e|r]; [reflexivity|].
  cbn in H. cbn [error_of]. by rewrite H.
Qed.

(** Lines 71-85 on a handle without a cooldown. *)
Lemma pause_requests_run attempt err w :
  rateLimiter w = None ->
  pause_requests attempt err w = (Returned tt, paused attempt err w).
Proof.
  intros H. destruct w as [rl lk tk tm nw dc rq tr]; simpl in H; subst rl.
  unfold pause_requests, paused, console_log, setTimeout, bind, read, effect,
    asyncLock, acquire.
  world.
  rewrite lookup_last_made. cbn [free_lock held waiters].
  rewrite square_delay, insert_last_made. world.
  reflexivity.
Qed.

(** Lines 70 and 86: a handle that has a cooldown is left alone. *)
Lemma pause_requests_skip attempt err w l :
  rateLimiter w = Some l ->
  pause_requests attempt err w = (Returned tt, w).
Proof. intros H. unfold pause_requests, bind, read. by rewrite H. Qed.

(** The next attempt waits at line 56 until the timer has run. *)
Lemma wait_cooldown attempt err w :
  idle w ->
  wait_for_rateLimiter (paused attempt err w) =
    (Returned tt,
     {| rateLimiter := None;
        locks := locks w ++ [{| held := true; waiters := [] |}];
        tickets := S (tickets w);
        timers := [];
        now := now w + 1000 * (attempt * attempt);
        decorated := decorated w;
        requests := requests w;
        trace := trace (paused attempt err w) ++
          [EvAcquire (length (locks w));
           EvTimer (now w + 1000 * (attempt * attempt));
           EvRelease (length (locks w)); EvLog ["Done pausing requests"]] |}).
Proof.
  intros [Hrl Htm].
  destruct w as [rl lk tk tm nw dc rq tr]; simpl in Hrl, Htm; subst rl tm.
  unfold wait_for_rateLimiter, paused, bind, read, acquire, await.
  world.
  rewrite lookup_last_made. cbn [held waiters app].
  rewrite insert_last_made. world.
  cbn [length await_for settled]. world.
  rewrite lookup_last_made. cbn [held waiters].
  rewrite bool_decide_eq_false_2
    by (intros Hn; apply Hn; apply list_elem_of_singleton; reflexivity).
  unfold fire_timer. world. cbn [next_timer delete list_delete].
  unfold cooldown_expired, release. world.
  rewrite lookup_last_made. cbn [held waiters]. rewrite insert_last_made. world.
  rewrite lookup_last_made. cbn [held waiters].
  rewrite bool_decide_eq_true_2 by apply not_elem_of_nil.
  rewrite Z.max_r by nia.
  reflexivity.
Qed.

(** A failure at an attempt that may be retried, on an idle handle: the
    call goes on as the next attempt, made once the cooldown is over, with
    the same descriptor. *)
Lemma failure_step attempt w :
  idle w -> attempt <= 5 ->
  fails (answer performRequest api req w 0) = true ->
  requestWithBackoff performRequest api req attempt w =
  requestWithBackoff performRequest api req (attempt + 1)
    (after_failure performRequest api req attempt w).
Proof.
  intros Hidle Ha Hf. pose proof Hidle as [Hrl Htm].
  rewrite (requestWithBackoff_no_cooldown (attempt + 1)
             (after_failure performRequest api req attempt w)) by reflexivity.
  rewrite requestWithBackoff_no_cooldown by assumption.
  unfold try_catch at 1. rewrite try_block_fails by assumption.
  replace (attempt <=? 5) with true by (symmetry; apply Z.leb_le; lia).
  unfold bind at 1. rewrite pause_requests_run by assumption.
  rewrite (requestWithBackoff_eq _ _ _ (attempt + 1)).
  unfold bind at 1. rewrite wait_cooldown by (split; assumption).
  f_equal.
  unfold after_failure, failure_events, paused, after_last. world.
  destruct (answer performRequest api req w 0) as [e|r]; [reflexivity|].
  cbn [fails] in Hf. by rewrite Hf.
Qed.

(** An attempt that succeeds, on a handle without a cooldown. *)
Lemma success_step attempt w r :
  rateLimiter w = None ->
  answer performRequest api req w 0 = Resolves r -> status r <> 429 ->
  requestWithBackoff performRequest api req attempt w =
    (Returned r, after_last performRequest api req w).
Proof.
  intros Hrl Hr Hs.
  rewrite requestWithBackoff_no_cooldown by assumption.
  unfold try_catch. rewrite try_block_run, Hr.
  apply Z.eqb_neq in Hs. by rewrite Hs.
Qed.

(** A failure past the fifth attempt, on a handle without a cooldown. *)
Lemma give_up_step attempt w :
  rateLimiter w = None -> attempt > 5 ->
  fails (answer performRequest api req w 0) = true ->
  requestWithBackoff performRequest api req attempt w =
    (Threw (error_of (answer performRequest api req w 0)),
     after_last performRequest api req w).
Proof.
  intros Hrl Ha Hf.
  rewrite requestWithBackoff_no_cooldown by assumption.
  unfold try_catch. rewrite try_block_fails by assumption.
  replace (attempt <=? 5) with false by (symmetry; apply Z.leb_gt; lia).
  reflexivity.
Qed.

(** *** Several failures in a row *)

Lemma after_failure_idle attempt w :
  idle (after_failure performRequest api req attempt w).
Proof. split; reflexivity. Qed.

Lemma after_failures_idle k : forall attempt w,
  idle w -> idle (after_failures performRequest api req k attempt w).
Proof.
  induction k as [|k IH]; intros attempt w Hw; [exact Hw|].
  cbn [after_failures]. apply IH, after_failure_idle.
Qed.

Lemma answer_after_failure attempt w i :
  answer performRequest api req (after_failure performRequest api req attempt w) i =
  answer performRequest api req w (S i).
Proof.
  unfold answer, after_failure. cbn [requests decorated].
  by rewrite <- !plus_n_Sm.
Qed.

Lemma answer_after_failures k : forall attempt w i,
  answer performRequest api req (after_failures performRequest api req k attempt w) i =
  answer performRequest api req w (k + i).
Proof.
  induction k as [|k IH]; intros attempt w i; [reflexivity|].
  cbn [after_failures]. rewrite IH, answer_after_failure.
  reflexivity.
Qed.

Lemma retry_chain k : forall attempt w,
  idle w -> attempt + Z.of_nat k <= 6 ->
  (forall i, (i < k)%nat -> fails (answer performRequest api req w i) = true) ->
  requestWithBackoff performRequest api req attempt w =
  requestWithBackoff performRequest api req (attempt + Z.of_nat k)
    (after_failures performRequest api req k attempt w).
Proof.
  induction k as [|k IH]; intros attempt w Hw Hk Hf.
  - cbn [after_failures]. by rewrite Z.add_0_r.
  - cbn [after_failures].
    rewrite failure_step by first [assumption | lia | apply Hf; lia].
    rewrite IH.
    + f_equal. lia.
    + apply after_failure_idle.
    + lia.
    + intros i Hi. rewrite answer_after_failure. apply Hf. lia.
Qed.

(** What [k] failed attempts leave behind. *)
Lemma after_failures_counts k : forall attempt w,
  requests (after_failures performRequest api req k attempt w) = (requests w + k)%nat /\
  decorated (after_failures performRequest api req k attempt w) = (decorated w + k)%nat /\
  length (locks (after_failures performRequest api req k attempt w)) =
    (length (locks w) + k)%nat.
Proof.
  induction k as [|k IH]; intros attempt w.
  - cbn [after_failures]. rewrite !Nat.add_0_r. done.
  - cbn [after_failures].
    destruct (IH (attempt + 1) (after_failure performRequest api req attempt w))
      as (-> & -> & ->).
    unfold after_failure. cbn [requests decorated locks].
    rewrite length_app. cbn [length]. repeat split; lia.
Qed.

Lemma failure_events_timeouts attempt w :
  timeouts (failure_events performRequest api req attempt w) = [1000 * (attempt * attempt)].
Proof.
  unfold failure_events, timeouts. rewrite !omap_app.
  destruct (answer performRequest api req w 0); reflexivity.
Qed.

Lemma failure_events_locks_made attempt w :
  locks_made (failure_events performRequest api req attempt w) = [length (locks w)].
Proof.
  unfold failure_events, locks_made. rewrite !omap_app.
  destruct (answer performRequest api req w 0); reflexivity.
Qed.

Lemma failure_events_decorations attempt w :
  decorations (failure_events performRequest api req attempt w) = [req].
Proof.
  unfold failure_events, decorations. rewrite !omap_app.
  destruct (answer performRequest api req w 0); reflexivity.
Qed.

Lemma failure_events_dispatched attempt w :
  dispatched (failure_events performRequest api req attempt w) =
    [buildRequest api (decorated w) req].
Proof.
  unfold failure_events, dispatched. rewrite !omap_app.
  destruct (answer performRequest api req w 0); reflexivity.
Qed.

Lemma failure_events_one_at_a_time attempt w :
  one_at_a_time false (failure_events performRequest api req attempt w) = Some false.
Proof.
  unfold failure_events.
  destruct (answer performRequest api req w 0); reflexivity.
Qed.

(** The trace of [k] failed attempts in a row. *)
Lemma after_failures_trace k : forall attempt w,
  exists evs,
    trace (after_failures performRequest api req k attempt w) = trace w ++ evs /\
    timeouts evs = backoff attempt k /\
    locks_made evs = seq (length (locks w)) k /\
    decorations evs = replicate k req /\
    dispatched evs = (fun i => buildRequest api i req) <$> seq (decorated w) k /\
    one_at_a_time false evs = Some false.
Proof.
  induction k as [|k IH]; intros attempt w.
  - exists []. cbn [after_failures]. rewrite app_nil_r. done.
  - cbn [after_failures].
    destruct (IH (attempt + 1) (after_failure performRequest api req attempt w))
      as (evs & Ht & Hto & Hlm & Hde & Hdi & Hone).
    exists (failure_events performRequest api req attempt w ++ evs).
    split; [rewrite Ht; unfold after_failure; cbn [trace]; by rewrite app_assoc|].
    unfold timeouts, locks_made, decorations, dispatched in *.
    rewrite !omap_app.
    fold (timeouts (failure_events performRequest api req attempt w)).
    fold (locks_made (failure_events performRequest api req attempt w)).
    fold (decorations (failure_events performRequest api req attempt w)).
    fold (dispatched (failure_events performRequest api req attempt w)).
    rewrite failure_events_timeouts, failure_events_locks_made,
      failure_events_decorations, failure_events_dispatched.
    rewrite Hto, Hlm, Hde, Hdi.
    rewrite one_at_a_time_app, failure_events_one_at_a_time, Hone.
    unfold after_failure. cbn [locks decorated].
    rewrite length_app. cbn [length]. rewrite Nat.add_1_r.
    done.
Qed.

Lemma after_last_trace w :
  exists evs,
    trace (after_last performRequest api req w) = trace w ++ evs /\
    timeouts evs = [] /\ locks_made evs = [] /\
    decorations evs = [req] /\
    dispatched evs = [buildRequest api (decorated w) req] /\
    forall p, one_at_a_time p evs = Some p.
Proof.
  eexists. split; [reflexivity|].
  destruct (answer performRequest api req w 0) as [e|r];
    [|destruct (status r =? 429)]; repeat split; intros []; reflexivity.
Qed.

Lemma after_last_idle w : idle w -> idle (after_last performRequest api req w).
Proof. intros [H1 H2]. split; assumption. Qed.

(** The trace of [k] failed attempts and of the attempt that ends the call. *)
Lemma run_trace k attempt w :
  exists evs,
    trace (after_last performRequest api req
             (after_failures performRequest api req k attempt w)) = trace w ++ evs /\
    timeouts evs = backoff attempt k /\
    locks_made evs = seq (length (locks w)) k /\
    decorations evs = replicate (S k) req /\
    dispatched evs = (fun i => buildRequest api i req) <$> seq (decorated w) (S k) /\
    one_at_a_time false evs = Some false.
Proof.
  destruct (after_failures_trace k attempt w) as (evs & Ht & Hto & Hlm & Hde & Hdi & Hone).
  destruct (after_last_trace (after_failures performRequest api req k attempt w))
    as (last & Ht' & Hto' & Hlm' & Hde' & Hdi' & Hone').
  exists (evs ++ last).
  split; [by rewrite Ht', Ht, app_assoc|].
  unfold timeouts, locks_made, decorations, dispatched in *.
  rewrite !omap_app, one_at_a_time_app.
  rewrite Hto, Hto', Hlm, Hlm', Hde, Hde', Hdi, Hdi', Hone, Hone', !app_nil_r.
  destruct (after_failures_counts k attempt w) as (_ & -> & _).
  repeat split.
  - by rewrite replicate_S_end.
  - by rewrite seq_S, fmap_app.
Qed.

Lemma run_until_success k r attempt w :
  idle w -> attempt + Z.of_nat k <= 6 ->
  (forall i, (i < k)%nat -> fails (answer performRequest api req w i) = true) ->
  answer performRequest api req w k = Resolves r -> status r <> 429 ->
  requestWithBackoff performRequest api req attempt w =
    (Returned r,
     after_last performRequest api req (after_failures performRequest api req k attempt w)).
Proof.
  intros Hw Hk Hf Hr Hs.
  rewrite (retry_chain k) by assumption.
  apply success_step; [by apply after_failures_idle | | assumption].
  by rewrite answer_after_failures, Nat.add_0_r.
Qed.

Lemma run_until_give_up k attempt w :
  idle w -> attempt + Z.of_nat k = 6 ->
  (forall i, (i <= k)%nat -> fails (answer performRequest api req w i) = true) ->
  requestWithBackoff performRequest api req attempt w =
    (Threw (error_of (answer performRequest api req w k)),
     after_last performRequest api req (after_failures performRequest api req k attempt w)).
Proof.
  intros Hw Hk Hf.
  rewrite (retry_chain k) by first [assumption | lia | intros; apply Hf; lia].
  rewrite give_up_step.
  - by rewrite answer_after_failures, Nat.add_0_r.
  - by apply after_failures_idle.
  - lia.
  - rewrite answer_after_failures, Nat.add_0_r. apply Hf. lia.
Qed.

End OneAttempt.

(** ** The dispatcher: retries, cooldowns, throttling *)

Section DispatcherProperties.

Variable performRequest : Transport.
Variable api : API.
Variable req : ApiRequest.

Abbreviation answer := (answer performRequest api req).
Abbreviation requestWithBackoff := (requestWithBackoff performRequest api req).
Abbreviation try_block := (try_block performRequest api req).

Lemma requestWithBackoff_after_wait attempt w w1 :
  wait_for_rateLimiter w = (Returned tt, w1) ->
  requestWithBackoff attempt w =
    try_catch try_block
      (fun err =>
         if attempt <=? 5 then
           _ <- pause_requests attempt err ;;
           requestWithBackoff (attempt + 1)
         else throw err) w1.
Proof. intros H. rewrite requestWithBackoff_eq. unfold bind at 1. by rewrite H. Qed.

(** When the timer of a cooldown that nobody waits for runs, the lock is
    released and the handle's field cleared. *)
Lemma fire_cooldown attempt err w :
  idle w ->
  fire_timer (paused attempt err w) =
    Some {| rateLimiter := None;
            locks := locks w ++ [{| held := false; waiters := [] |}];
            tickets := tickets w;
            timers := [];
            now := now w + 1000 * (attempt * attempt);
            decorated := decorated w;
            requests := requests w;
            trace := trace (paused attempt err w) ++
              [EvTimer (now w + 1000 * (attempt * attempt));
               EvRelease (length (locks w)); EvLog ["Done pausing requests"]] |}.
Proof.
  intros [Hrl Htm].
  destruct w as [rl lk tk tm nw dc rq tr]; simpl in Hrl, Htm; subst rl tm.
  unfold fire_timer, paused. world. cbn [next_timer delete list_delete].
  unfold cooldown_expired, release. world.
  rewrite lookup_last_made. cbn [held waiters]. rewrite insert_last_made. world.
  rewrite Z.max_r by nia.
  reflexivity.
Qed.

(** C1, as amended.  When the transport fails exactly [k] times, [k <= 4],
    and then succeeds, a call on an idle handle resolves with the
    successful response after [k + 1] attempts, and [k] cooldown locks and
    timers are installed across the sequence: one after each failure, of
    1, 4, 9, ... seconds, never two at a time, none left at the end. *)
Theorem retries_then_success k r w :
  idle w -> (k <= 4)%nat ->
  (forall i, (i < k)%nat -> fails (answer w i) = true) ->
  answer w k = Resolves r -> status r <> 429 ->
  exists w',
    requestWithBackoff 1 w = (Returned r, w') /\
    length (dispatched (since w w')) = S k /\
    timeouts (since w w') = backoff 1 k /\
    length (timeouts (since w w')) = k /\
    length (locks_made (since w w')) = k /\
    one_at_a_time false (since w w') = Some false /\
    idle w'.
Proof.
  intros Hw Hk Hf Hr Hs.
  eexists. split; [apply (run_until_success _ _ _ k r 1 w); (assumption || lia)|].
  destruct (run_trace performRequest api req k 1 w)
    as (evs & Ht & Hto & Hlm & Hde & Hdi & Hone).
  rewrite (since_app _ _ _ Ht), Hto, Hlm, Hdi, Hone.
  rewrite length_fmap, !length_seq, backoff_length.
  pose proof (after_last_idle performRequest api req _
                (after_failures_idle performRequest api req k 1 w Hw)) as Hidle.
  repeat split; try reflexivity; apply Hidle.
Qed.

(** C2.  When the transport fails on six consecutive attempts, the call
    raises the error of the sixth failure as it is, after exactly six
    attempts, and the cooldown timers installed are those of attempts 1 to
    5: nothing is installed for the sixth failure. *)
Theorem six_failures_raise_the_last w :
  idle w ->
  (forall i, (i < 6)%nat -> fails (answer w i) = true) ->
  exists w',
    requestWithBackoff 1 w = (Threw (error_of (answer w 5)), w') /\
    length (dispatched (since w w')) = 6%nat /\
    requests w' = (requests w + 6)%nat /\
    timeouts (since w w') = [1000; 4000; 9000; 16000; 25000] /\
    length (locks_made (since w w')) = 5%nat /\
    idle w'.
Proof.
  intros Hw Hf.
  eexists. split.
  { apply (run_until_give_up _ _ _ 5 1 w); [assumption | reflexivity |].
    intros i Hi. apply Hf. lia. }
  destruct (run_trace performRequest api req 5 1 w)
    as (evs & Ht & Hto & Hlm & Hde & Hdi & Hone).
  rewrite (since_app _ _ _ Ht), Hto, Hlm, Hdi.
  rewrite length_fmap, !length_seq.
  destruct (after_failures_counts performRequest api req 5 1 w) as (Hrq & _ & _).
  pose proof (after_last_idle performRequest api req _
                (after_failures_idle performRequest api req 5 1 w Hw)) as Hidle.
  repeat split; try reflexivity; try apply Hidle.
  cbn [after_last requests]. rewrite Hrq. lia.
Qed.

(** C3.  For a response that the transport produces without raising, the
    [try] block throws exactly when the status is 429.  With any other
    status the call returns that response, having made two calls only
    (decorator and transport) and left the handle and the timers alone;
    with 429 the [catch] clause runs on the error built from the body. *)
Theorem only_status_429_is_a_failure attempt w w1 r :
  wait_for_rateLimiter w = (Returned tt, w1) ->
  answer w1 0 = Resolves r ->
  ((exists e w', try_block w1 = (Threw e, w')) <-> status r = 429) /\
  (status r <> 429 ->
   exists w',
     requestWithBackoff attempt w = (Returned r, w') /\
     trace w' = trace w1 ++
       [EvBuildRequest (decorated w1) req;
        EvRequest (requests w1) (buildRequest api (decorated w1) req)] /\
     rateLimiter w' = rateLimiter w1 /\ timers w' = timers w1 /\
     locks w' = locks w1) /\
  (status r = 429 ->
   exists w',
     requestWithBackoff attempt w =
       (if attempt <=? 5 then
          _ <- pause_requests attempt (NewError (default "Too many requests" (text r))) ;;
          requestWithBackoff (attempt + 1)
        else throw (NewError (default "Too many requests" (text r)))) w' /\
     trace w' = trace w1 ++
       [EvBuildRequest (decorated w1) req;
        EvRequest (requests w1) (buildRequest api (decorated w1) req);
        EvText r]).
Proof.
  intros Hwait Hr.
  pose proof (try_block_run performRequest api req w1) as Htry. rewrite Hr in Htry.
  rewrite (requestWithBackoff_after_wait attempt w w1 Hwait).
  unfold try_catch. rewrite Htry.
  destruct (Z.eqb_spec (status r) 429) as [Heq|Hne].
  - split; [split; [done | intros _; eauto]|].
    split; [done|]. intros _. eexists. split; [reflexivity|].
    unfold after_last. cbn [trace]. rewrite Hr.
    apply Z.eqb_eq in Heq. by rewrite Heq.
  - split; [split; [intros (e & w' & [=]) | done]|].
    split; [|done]. intros _. eexists. split; [reflexivity|].
    unfold after_last. cbn [trace rateLimiter timers locks]. rewrite Hr.
    apply Z.eqb_neq in Hne. by rewrite Hne.
Qed.

(** C4.  When the transport answers with status 429, the error thrown has
    as its message the text of the response body, or ["Too many requests"]
    when reading the body fails: in the [try] block, in a call that is past
    its fifth attempt, and in a call whose sixth failure it is. *)
Theorem throttled_error_carries_the_body w r :
  idle w ->
  status r = 429 ->
  let msg := match text r with Some body => body | None => "Too many requests" end in
  (answer w 0 = Resolves r ->
   (exists w', try_block w = (Threw (NewError msg), w')) /\
   (forall attempt, attempt > 5 ->
      exists w', requestWithBackoff attempt w = (Threw (NewError msg), w'))) /\
  ((forall i, (i < 5)%nat -> fails (answer w i) = true) ->
   answer w 5 = Resolves r ->
   exists e w', requestWithBackoff 1 w = (Threw e, w') /\ message e = msg).
Proof.
  intros Hw Hs msg.
  assert (Hmsg : default "Too many requests" (text r) = msg) by (subst msg; by destruct (text r)).
  apply Z.eqb_eq in Hs.
  split.
  - intros Hr. split.
    + eexists. rewrite try_block_run, Hr, Hs, Hmsg. reflexivity.
    + intros attempt Ha. eexists.
      rewrite give_up_step; [| apply Hw | assumption | by rewrite Hr].
      rewrite Hr. cbn [error_of]. rewrite Hmsg. reflexivity.
  - intros Hf Hr. eexists _, _. split.
    + apply (run_until_give_up _ _ _ 5 1 w); [assumption | reflexivity |].
      intros i Hi. destruct (decide (i = 5%nat)) as [->|Hne].
      * by rewrite Hr.
      * apply Hf. lia.
    + rewrite Hr. cbn [error_of message]. exact Hmsg.
Qed.

(** C5.  After a failure at attempt [n], [1 <= n <= 5], on an idle handle,
    the cooldown installed registers one timer of [1000 * n * n]
    milliseconds, that is 1s, 4s, 9s, 16s, 25s; when that timer runs, [n * n]
    seconds later, it releases the lock and removes it from the handle,
    and it is then that the next attempt is made. *)
Theorem cooldown_lasts_attempt_squared_seconds n err w :
  1 <= n <= 5 -> idle w ->
  backoff 1 5 = [1000; 4000; 9000; 16000; 25000] /\
  backoff 1 5 !! Z.to_nat (n - 1) = Some (1000 * n * n) /\
  (exists w1 w2 l,
     pause_requests n err w = (Returned tt, w1) /\
     rateLimiter w1 = Some l /\
     locks w1 !! l = Some {| held := true; waiters := [] |} /\
     timeouts (since w w1) = [1000 * n * n] /\
     timers w1 = [now w + 1000 * n * n] /\
     fire_timer w1 = Some w2 /\
     now w2 = now w + 1000 * n * n /\
     rateLimiter w2 = None /\
     locks w2 !! l = Some {| held := false; waiters := [] |} /\
     timers w2 = []) /\
  (fails (answer w 0) = true ->
   exists w',
     requestWithBackoff n w = requestWithBackoff (n + 1) w' /\
     now w' = now w + 1000 * n * n /\
     timeouts (since w w') = [1000 * n * n] /\
     idle w').
Proof.
  intros Hn Hw. pose proof Hw as [Hrl Htm].
  replace (1000 * n * n) with (1000 * (n * n)) by lia.
  split; [reflexivity|]. split.
  { assert (n = 1 \/ n = 2 \/ n = 3 \/ n = 4 \/ n = 5) as Hc by lia.
    destruct Hc as [->|[->|[->|[->| ->]]]]; reflexivity. }
  split.
  - exists (paused n err w). eexists. exists (length (locks w)).
    split; [by apply pause_requests_run|].
    split; [reflexivity|].
    split; [apply lookup_last_made|].
    split; [by rewrite (since_app w (paused n err w) _ eq_refl)|].
    split; [unfold paused; cbn [timers]; by rewrite Htm|].
    split; [by apply fire_cooldown|].
    cbn [now rateLimiter locks timers].
    repeat split. apply lookup_last_made.
  - intros Hf. exists (after_failure performRequest api req n w).
    split; [apply failure_step; (assumption || lia)|].
    split; [reflexivity|].
    split; [|split; reflexivity].
    rewrite (since_app w _ (failure_events performRequest api req n w)) by reflexivity.
    apply failure_events_timeouts.
Qed.

(** C6, as amended.  A failure at an attempt that may be retried makes the
    call go on as attempt + 1 with the same, original descriptor; every
    attempt hands that descriptor to the decorator anew, and dispatches
    what the decorator answers on that attempt. *)
Theorem every_attempt_decorates_the_original k r w :
  idle w -> (k <= 4)%nat ->
  (forall i, (i < k)%nat -> fails (answer w i) = true) ->
  answer w k = Resolves r -> status r <> 429 ->
  (forall attempt, attempt <= 5 -> fails (answer w 0) = true ->
     requestWithBackoff attempt w =
     requestWithBackoff (attempt + 1) (after_failure performRequest api req attempt w)) /\
  exists w',
    requestWithBackoff 1 w = (Returned r, w') /\
    decorations (since w w') = replicate (S k) req /\
    dispatched (since w w') =
      (fun i => buildRequest api i req) <$> seq (decorated w) (S k).
Proof.
  intros Hw Hk Hf Hr Hs. split.
  - intros attempt Ha Hf0. by apply failure_step.
  - eexists. split; [apply (run_until_success _ _ _ k r 1 w); (assumption || lia)|].
    destruct (run_trace performRequest api req k 1 w)
      as (evs & Ht & Hto & Hlm & Hde & Hdi & Hone).
    by rewrite (since_app _ _ _ Ht).
Qed.

End DispatcherProperties.

(** *** Instances *)

Lemma retries_then_success_twice :
  exists w',
    requestWithBackoff (flaky 2) (plain (flaky 2)) (ReqString "/repos") 1 world0 =
      (Returned ok, w') /\
    length (dispatched (since world0 w')) = 3%nat /\
    timeouts (since world0 w') = [1000; 4000] /\
    length (timeouts (since world0 w')) = 2%nat /\
    length (locks_made (since world0 w')) = 2%nat /\
    one_at_a_time false (since world0 w') = Some false /\
    idle w'.
Proof.
  apply (retries_then_success (flaky 2) (plain (flaky 2)) (ReqString "/repos") 2 ok world0).
  - split; reflexivity.
  - lia.
  - intros [|[|i]] Hi; [reflexivity | reflexivity | lia].
  - reflexivity.
  - discriminate.
Defined.

(** C1 as stated fails: two failures in a row install two cooldown locks and
    two timers, not one. *)
Lemma two_failures_install_two_cooldowns :
  exists w',
    requestWithBackoff (flaky 2) (plain (flaky 2)) (ReqString "/repos") 1 world0 =
      (Returned ok, w') /\
    length (dispatched (trace w')) = 3%nat /\
    timeouts (trace w') = [1000; 4000] /\
    locks_made (trace w') = [0%nat; 1%nat] /\
    length (timeouts (trace w')) <> 1%nat /\
    length (locks_made (trace w')) <> 1%nat.
Proof.
  eexists. split; [vm_compute; reflexivity|].
  repeat split; try (vm_compute; reflexivity); vm_compute; discriminate.
Qed.

Lemma six_failures_raise_the_last_offline :
  exists w',
    requestWithBackoff (flaky 6) (plain (flaky 6)) (ReqString "/repos") 1 world0 =
      (Threw (TransportFailure "Failed to fetch"), w') /\
    length (dispatched (since world0 w')) = 6%nat /\
    requests w' = 6%nat /\
    timeouts (since world0 w') = [1000; 4000; 9000; 16000; 25000] /\
    length (locks_made (since world0 w')) = 5%nat /\
    idle w'.
Proof.
  apply (six_failures_raise_the_last (flaky 6) (plain (flaky 6)) (ReqString "/repos") world0).
  - split; reflexivity.
  - intros [|[|[|[|[|[|i]]]]]] Hi; try reflexivity. lia.
Defined.

Lemma status_404_is_passed_through :
  exists w',
    requestWithBackoff (flaky 0) (plain (always not_found)) (ReqString "/repos") 1 world0 =
      (Returned not_found, w') /\
    trace w' = [EvBuildRequest 0%nat (ReqString "/repos");
                EvRequest 0%nat (ReqString "/repos")] /\
    rateLimiter w' = None /\ timers w' = [] /\ locks w' = [].
Proof.
  apply (only_status_429_is_a_failure (flaky 0) (plain (always not_found))
           (ReqString "/repos") 1 world0 world0 not_found); [reflexivity | reflexivity |].
  discriminate.
Defined.

Lemma slow_down_is_the_message :
  (exists w', try_block (flaky 0) (plain (always (too_many (Some "slow down"))))
                (ReqString "/repos") world0 = (Threw (NewError "slow down"), w')) /\
  (exists e w', requestWithBackoff (flaky 0) (plain (always (too_many (Some "slow down"))))
                  (ReqString "/repos") 1 world0 = (Threw e, w') /\
                message e = "slow down") /\
  (exists e w', requestWithBackoff (flaky 0) (plain (always (too_many None)))
                  (ReqString "/repos") 1 world0 = (Threw e, w') /\
                message e = "Too many requests").
Proof.
  split; [|split].
  - apply (throttled_error_carries_the_body (flaky 0)
             (plain (always (too_many (Some "slow down")))) (ReqString "/repos") world0
             (too_many (Some "slow down"))); [split; reflexivity | reflexivity | reflexivity].
  - apply (throttled_error_carries_the_body (flaky 0)
             (plain (always (too_many (Some "slow down")))) (ReqString "/repos") world0
             (too_many (Some "slow down"))); [split; reflexivity | reflexivity | | reflexivity].
    intros i _. reflexivity.
  - apply (throttled_error_carries_the_body (flaky 0)
             (plain (always (too_many None))) (ReqString "/repos") world0
             (too_many None)); [split; reflexivity | reflexivity | | reflexivity].
    intros i _. reflexivity.
Defined.

Lemma cooldown_after_third_attempt :
  exists w',
    requestWithBackoff (flaky 6) (plain (flaky 6)) (ReqString "/repos") 3 world0 =
    requestWithBackoff (flaky 6) (plain (flaky 6)) (ReqString "/repos") (3 + 1) w' /\
    now w' = 9000 /\
    timeouts (since world0 w') = [9000] /\
    idle w'.
Proof.
  apply (cooldown_lasts_attempt_squared_seconds (flaky 6) (plain (flaky 6))
           (ReqString "/repos") 3 (TransportFailure "Failed to fetch") world0);
    [lia | split; reflexivity | reflexivity].
Defined.

Lemma every_attempt_decorates_the_original_once_retried :
  exists w',
    requestWithBackoff (flaky 1) (stamping (flaky 1)) (ReqString "/repos") 1 world0 =
      (Returned ok, w') /\
    decorations (since world0 w') = [ReqString "/repos"; ReqString "/repos"] /\
    dispatched (since world0 w') = [ReqString "/repos?try=0"; ReqString "/repos?try=1"].
Proof.
  apply (every_attempt_decorates_the_original (flaky 1) (stamping (flaky 1))
           (ReqString "/repos") 1 ok world0).
  - split; reflexivity.
  - lia.
  - intros [|i] Hi; [reflexivity | lia].
  - reflexivity.
  - discriminate.
Defined.

(** C6 as stated fails: on the retry the decorator is called again, and the
    request dispatched is what it answers then, not what it answered on the
    first attempt. *)
Lemma retry_is_decorated_again :
  exists w',
    requestWithBackoff (flaky 1) (stamping (flaky 1)) (ReqString "/repos") 1 world0 =
      (Returned ok, w') /\
    decorations (trace w') = [ReqString "/repos"; ReqString "/repos"] /\
    dispatched (trace w') = [ReqString "/repos?try=0"; ReqString "/repos?try=1"] /\
    dispatched (trace w') !! 1%nat <>
      Some (buildRequest (stamping (flaky 1)) 0%nat (ReqString "/repos")).
Proof.
  eexists. split; [vm_compute; reflexivity|].
  repeat split; try (vm_compute; reflexivity); vm_compute; discriminate.
Qed.

(** ** The read-through cache *)

Lemma append_length (s1 s2 : string) :
  String.length (s1 +:+ s2) = (String.length s1 + String.length s2)%nat.
Proof. induction s1 as [|c s1 IH]; simpl; [reflexivity | by f_equal]. Qed.

Lemma textKey_neq_blobKey id : textKey id <> blobKey id.
Proof.
  unfold textKey, blobKey. intros H.
  apply (f_equal String.length) in H. rewrite !append_length in H. cbn in H. lia.
Qed.

Lemma truthy_id_nonempty id : id <> "" -> truthy_id (Id id) = true.
Proof.
  intros H. cbn. destruct (String.eqb_spec id ""); [contradiction | reflexivity].
Qed.

Lemma readFile_key_nonempty id isText :
  id <> "" -> readFile_key (Id id) isText = Some (if isText then textKey id else blobKey id).
Proof. intros H. unfold readFile_key. by rewrite truthy_id_nonempty. Qed.

(** Cache hit: the stored value is returned, nothing is fetched or written. *)
Lemma readFile_hit id isText key fetchContent s :
  readFile_key id isText = Some key ->
  truthy (default Null (store s !! key)) = true ->
  readFile id fetchContent isText s =
    (Returned (default Null (store s !! key)), called (GetItem key) s).
Proof.
  intros Hk Ht. unfold readFile. rewrite Hk. unfold bind, getItem, ret.
  by rewrite Ht.
Qed.

(** Cache miss: the content is fetched, stored under the key and returned. *)
Lemma readFile_miss id isText key content s :
  readFile_key id isText = Some key ->
  truthy (default Null (store s !! key)) = false ->
  readFile id (Returned content) isText s =
    (Returned (OfContent content),
     {| store := <[key := OfContent content]> (store s);
        calls := calls s ++ [GetItem key; Fetch; SetItem key (OfContent content)] |}).
Proof.
  intros Hk Ht. unfold readFile. rewrite Hk. unfold bind, getItem, invoke, setItem, ret, called.
  rewrite Ht. cbn [store calls]. by rewrite <- !app_assoc.
Qed.

(** Without a key: the content is fetched and returned, the store not
    touched. *)
Lemma readFile_no_key id isText fetchContent s :
  readFile_key id isText = None ->
  readFile id fetchContent isText s = (fetched OfContent fetchContent, called Fetch s).
Proof.
  intros Hk. unfold readFile. rewrite Hk. unfold bind, invoke, ret. cbn [truthy].
  destruct fetchContent; reflexivity.
Qed.

Lemma readFileMetadata_hit id fetchMetadata s :
  truthy (default Null (store s !! getFileMetadataKey id)) = true ->
  readFileMetadata id fetchMetadata s =
    (Returned (default Null (store s !! getFileMetadataKey id)),
     called (GetItem (getFileMetadataKey id)) s).
Proof.
  intros Ht. unfold readFileMetadata, bind, getItem, ret. by rewrite Ht.
Qed.

Lemma readFileMetadata_miss id metadata s :
  truthy (default Null (store s !! getFileMetadataKey id)) = false ->
  readFileMetadata id (Returned metadata) s =
    (Returned (OfMetadata metadata),
     {| store := <[getFileMetadataKey id := OfMetadata metadata]> (store s);
        calls := calls s ++
          [GetItem (getFileMetadataKey id); Fetch;
           SetItem (getFileMetadataKey id) (OfMetadata metadata)] |}).
Proof.
  intros Ht. unfold readFileMetadata, bind, getItem, invoke, setItem, ret, called.
  rewrite Ht. cbn [store calls]. by rewrite <- !app_assoc.
Qed.

(** C7.  With an absent id, [null] or [undefined], [readFile] invokes the
    fetch function and returns what it gives (its value, its error, or no
    answer); it calls neither [getItem] nor [setItem] and leaves the store as
    it was. *)
Theorem readFile_absent_id_bypasses_the_cache fetchContent isText s :
  readFile IdNull fetchContent isText s =
    (fetched OfContent fetchContent, {| store := store s; calls := calls s ++ [Fetch] |}) /\
  readFile IdUndefined fetchContent isText s =
    (fetched OfContent fetchContent, {| store := store s; calls := calls s ++ [Fetch] |}).
Proof. split; by apply readFile_no_key. Qed.

(** C8, as amended.  For a non-empty id and a store with no value under
    ["gh.<id>"], [readFile] in text mode invokes the fetch function once,
    stores the content under ["gh.<id>"] and returns it; if that content is
    truthy, a second call with the same id returns the stored value and
    invokes no fetch function. *)
Theorem readFile_fetches_once_then_hits id content fetchAgain s :
  id <> "" ->
  store s !! ("gh." +:+ id) = None ->
  let key := "gh." +:+ id in
  let s1 := {| store := <[key := OfContent content]> (store s);
               calls := calls s ++ [GetItem key; Fetch; SetItem key (OfContent content)] |} in
  readFile (Id id) (Returned content) true s = (Returned (OfContent content), s1) /\
  (truthy (OfContent content) = true ->
   readFile (Id id) fetchAgain true s1 =
     (Returned (OfContent content),
      {| store := store s1; calls := calls s1 ++ [GetItem key] |})).
Proof.
  intros Hid Hnone key s1. split.
  - apply readFile_miss; [by apply (readFile_key_nonempty id true)|].
    fold key in Hnone. unfold textKey. fold key. by rewrite Hnone.
  - intros Ht.
    rewrite (readFile_hit (Id id) true key); [| by apply (readFile_key_nonempty id true) |];
      subst s1; cbn [store]; rewrite lookup_insert_eq; [reflexivity | exact Ht].
Qed.

(** C9, as amended.  For every id, empty or not, the key of
    [readFileMetadata] is ["gh.<id>.meta"], and it follows the cache rule: a
    truthy stored value is returned, otherwise the fetched value is stored
    under the key and returned.  For a non-empty id the cache key of
    [readFile] is ["gh.<id>"] in text mode and ["gh.<id>.blob"] in binary
    mode, two different keys, these are the keys read and written, and the
    rule is the same. *)
Theorem cache_keys_are_exact id :
  (getFileMetadataKey id = "gh." +:+ id +:+ ".meta" /\
   "gh." +:+ id <> "gh." +:+ id +:+ ".blob" /\
   (forall fetchMetadata s,
      let key := "gh." +:+ id +:+ ".meta" in
      truthy (default Null (store s !! key)) = true ->
      readFileMetadata id fetchMetadata s =
        (Returned (default Null (store s !! key)),
         {| store := store s; calls := calls s ++ [GetItem key] |})) /\
   (forall metadata s,
      let key := "gh." +:+ id +:+ ".meta" in
      truthy (default Null (store s !! key)) = false ->
      readFileMetadata id (Returned metadata) s =
        (Returned (OfMetadata metadata),
         {| store := <[key := OfMetadata metadata]> (store s);
            calls := calls s ++ [GetItem key; Fetch; SetItem key (OfMetadata metadata)] |}))) /\
  (id <> "" ->
   readFile_key (Id id) true = Some ("gh." +:+ id) /\
   readFile_key (Id id) false = Some ("gh." +:+ id +:+ ".blob") /\
   (forall isText fetchContent s,
      let key := if isText : bool then "gh." +:+ id else "gh." +:+ id +:+ ".blob" in
      truthy (default Null (store s !! key)) = true ->
      readFile (Id id) fetchContent isText s =
        (Returned (default Null (store s !! key)),
         {| store := store s; calls := calls s ++ [GetItem key] |})) /\
   (forall isText content s,
      let key := if isText : bool then "gh." +:+ id else "gh." +:+ id +:+ ".blob" in
      truthy (default Null (store s !! key)) = false ->
      readFile (Id id) (Returned content) isText s =
        (Returned (OfContent content),
         {| store := <[key := OfContent content]> (store s);
            calls := calls s ++ [GetItem key; Fetch; SetItem key (OfContent content)] |}))).
Proof.
  split.
  - split; [reflexivity|]. split; [apply textKey_neq_blobKey|]. split.
    + intros fetchMetadata s key Ht. by apply readFileMetadata_hit.
    + intros metadata s key Ht. by apply readFileMetadata_miss.
  - intros Hid.
    split; [by apply (readFile_key_nonempty id true)|].
    split; [by apply (readFile_key_nonempty id false)|].
    split.
    + intros isText fetchContent s key Ht.
      apply (readFile_hit (Id id) isText key); [|exact Ht].
      rewrite readFile_key_nonempty by assumption. by destruct isText.
    + intros isText content s key Ht.
      apply (readFile_miss (Id id) isText key); [|exact Ht].
      rewrite readFile_key_nonempty by assumption. by destruct isText.
Qed.

Lemma readFile_repeatedly_falsy n : forall id isText key content s,
  readFile_key id isText = Some key ->
  truthy (default Null (store s !! key)) = false ->
  truthy (OfContent content) = false ->
  calls (readFile_repeatedly n id content isText s) =
    calls s ++ concat (replicate n [GetItem key; Fetch; SetItem key (OfContent content)]) /\
  truthy (default Null (store (readFile_repeatedly n id content isText s) !! key)) = false.
Proof.
  induction n as [|n IH]; intros id isText key content s Hk Hs Hc.
  - cbn [readFile_repeatedly replicate concat]. by rewrite app_nil_r.
  - cbn [readFile_repeatedly]. rewrite (readFile_miss id isText key content s Hk Hs).
    cbn [snd].
    destruct (IH id isText key content
                {| store := <[key := OfContent content]> (store s);
                   calls := calls s ++ [GetItem key; Fetch; SetItem key (OfContent content)] |}
                Hk) as [Hcalls Hstore].
    + cbn [store]. by rewrite lookup_insert_eq.
    + exact Hc.
    + split; [|exact Hstore].
      rewrite Hcalls. cbn [calls replicate concat]. by rewrite <- !app_assoc.
Qed.

(** C10, as amended.  Cache hits are decided by truthiness, not presence.
    [readFileMetadata], for every id, empty or not, treats a falsy value
    under its key, be it absent or present like the empty string, as a
    cache miss: the fetch function is invoked and the store rewritten.  So
    does [readFile] for every non-empty id, and when the content fetched is
    itself falsy this happens on every call, however many. *)
Theorem falsy_cached_value_is_a_miss id isText :
  let key := if isText : bool then "gh." +:+ id else "gh." +:+ id +:+ ".blob" in
  let mkey := "gh." +:+ id +:+ ".meta" in
  (forall metadata s,
     truthy (default Null (store s !! mkey)) = false ->
     readFileMetadata id (Returned metadata) s =
       (Returned (OfMetadata metadata),
        {| store := <[mkey := OfMetadata metadata]> (store s);
           calls := calls s ++ [GetItem mkey; Fetch; SetItem mkey (OfMetadata metadata)] |})) /\
  (id <> "" ->
   (forall content s,
      truthy (default Null (store s !! key)) = false ->
      readFile (Id id) (Returned content) isText s =
        (Returned (OfContent content),
         {| store := <[key := OfContent content]> (store s);
            calls := calls s ++ [GetItem key; Fetch; SetItem key (OfContent content)] |})) /\
   (forall n content s,
      truthy (default Null (store s !! key)) = false ->
      truthy (OfContent content) = false ->
      calls (readFile_repeatedly n (Id id) content isText s) =
        calls s ++ concat (replicate n [GetItem key; Fetch; SetItem key (OfContent content)]) /\
      truthy (default Null (store (readFile_repeatedly n (Id id) content isText s) !! key))
        = false)).
Proof.
  intros key mkey. split.
  - intros metadata s Hs. by apply readFileMetadata_miss.
  - intros Hid.
    assert (Hk : readFile_key (Id id) isText = Some key).
    { rewrite readFile_key_nonempty by assumption. subst key. by destruct isText. }
    split.
    + intros content s Hs. by apply readFile_miss.
    + intros n content s Hs Hc. by apply readFile_repeatedly_falsy.
Qed.

(** *** Instances *)

Lemma readFile_abc123_fetches_once_then_hits :
  let s1 := {| store := {["gh.abc123" := OfContent (Text "# Title")]};
               calls := [GetItem "gh.abc123"; Fetch;
                         SetItem "gh.abc123" (OfContent (Text "# Title"))] |} in
  readFile (Id "abc123") (Returned (Text "# Title")) true cache0 =
    (Returned (OfContent (Text "# Title")), s1) /\
  readFile (Id "abc123") (Returned (Text "other")) true s1 =
    (Returned (OfContent (Text "# Title")),
     {| store := store s1; calls := calls s1 ++ [GetItem "gh.abc123"] |}).
Proof.
  destruct (readFile_fetches_once_then_hits "abc123" (Text "# Title")
              (Returned (Text "other")) cache0) as [H1 H2];
    [discriminate | reflexivity |].
  split; [exact H1 | apply H2; reflexivity].
Defined.

(** C8 as stated fails twice: the empty string is an id that is not null,
    and nothing is stored for it; and content that is the empty string is
    stored, yet fetched again by the second call. *)
Lemma readFile_stores_nothing_or_fetches_twice :
  readFile (Id "") (Returned (Text "# Title")) true cache0 =
    (Returned (OfContent (Text "# Title")), {| store := ∅; calls := [Fetch] |}) /\
  (let s1 := snd (readFile (Id "abc123") (Returned (Text "")) true cache0) in
   store s1 !! "gh.abc123" = Some (OfContent (Text "")) /\
   calls (snd (readFile (Id "abc123") (Returned (Text "")) true s1)) =
     [GetItem "gh.abc123"; Fetch; SetItem "gh.abc123" (OfContent (Text ""));
      GetItem "gh.abc123"; Fetch; SetItem "gh.abc123" (OfContent (Text ""))]).
Proof. repeat split; vm_compute; reflexivity. Qed.

Lemma cache_keys_of_abc123 :
  readFile_key (Id "abc123") true = Some "gh.abc123" /\
  readFile_key (Id "abc123") false = Some "gh.abc123.blob" /\
  "gh.abc123" <> "gh.abc123.blob" /\
  getFileMetadataKey "abc123" = "gh.abc123.meta" /\
  getFileMetadataKey "" = "gh..meta" /\
  readFileMetadata "" (Returned {| author := "ada"; updatedOn := "2020-01-01" |}) cache0 =
    (Returned (OfMetadata {| author := "ada"; updatedOn := "2020-01-01" |}),
     {| store := {["gh..meta" := OfMetadata {| author := "ada"; updatedOn := "2020-01-01" |}]};
        calls := [GetItem "gh..meta"; Fetch;
                  SetItem "gh..meta"
                    (OfMetadata {| author := "ada"; updatedOn := "2020-01-01" |})] |}).
Proof.
  destruct (cache_keys_are_exact "abc123") as ((H4 & H3 & _) & Hfile).
  destruct Hfile as (H1 & H2 & _); [discriminate|].
  destruct (cache_keys_are_exact "") as ((H5 & _ & _ & H6) & _).
  split; [exact H1|]. split; [exact H2|]. split; [exact H3|].
  split; [exact H4|]. split; [exact H5|].
  apply (H6 {| author := "ada"; updatedOn := "2020-01-01" |} cache0). reflexivity.
Defined.

(** C9 as stated fails: the empty string is an id that is not null, and
    [readFile] has no key for it, in either mode: the store is not called. *)
Lemma empty_id_has_no_key :
  readFile_key (Id "") true = None /\
  readFile_key (Id "") false = None /\
  readFile_key (Id "") true <> Some "gh." /\
  calls (snd (readFile (Id "") (Returned (Text "# Title")) true cache0)) = [Fetch] /\
  calls (snd (readFile (Id "") (Returned (Text "# Title")) false cache0)) = [Fetch].
Proof. repeat split; try discriminate; vm_compute; reflexivity. Qed.

Lemma empty_string_cached_is_fetched_every_time :
  let s := {| store := {["gh.abc123" := OfContent (Text "")]}; calls := [] |} in
  let m := {| author := "ada"; updatedOn := "2020-01-01" |} in
  (calls (readFile_repeatedly 3 (Id "abc123") (Text "") true s) =
     [GetItem "gh.abc123"; Fetch; SetItem "gh.abc123" (OfContent (Text ""));
      GetItem "gh.abc123"; Fetch; SetItem "gh.abc123" (OfContent (Text ""));
      GetItem "gh.abc123"; Fetch; SetItem "gh.abc123" (OfContent (Text ""))] /\
   truthy (default Null (store (readFile_repeatedly 3 (Id "abc123") (Text "") true s)
                           !! "gh.abc123")) = false) /\
  readFileMetadata "" (Returned m)
    {| store := {["gh..meta" := OfContent (Text "")]}; calls := [] |} =
    (Returned (OfMetadata m),
     {| store := {["gh..meta" := OfMetadata m]};
        calls := [GetItem "gh..meta"; Fetch; SetItem "gh..meta" (OfMetadata m)] |}).
Proof.
  intros s m. split.
  - destruct (falsy_cached_value_is_a_miss "abc123" true) as (_ & Hfile).
    destruct Hfile as (_ & Hrep); [discriminate|].
    apply (Hrep 3%nat (Text "") s); reflexivity.
  - destruct (falsy_cached_value_is_a_miss "" true) as (Hmeta & _).
    rewrite (Hmeta m {| store := {["gh..meta" := OfContent (Text "")]}; calls := [] |})
      by (vm_compute; reflexivity).
    vm_compute. reflexivity.
Defined.

(** C10 as stated fails: the empty string is an id that is not null; the
    content fetched for it is falsy, and the store is not rewritten. *)
Lemma empty_id_never_rewrites_the_store :
  readFile (Id "") (Returned (Text "")) true cache0 =
    (Returned (OfContent (Text "")), {| store := ∅; calls := [Fetch] |}) /\
  readFile_repeatedly 2 (Id "") (Text "") true cache0 =
    {| store := ∅; calls := [Fetch; Fetch] |}.
Proof. split; vm_compute; reflexivity. Qed.

(** ** Labels, content keys and branch names *)

Lemma append_cons c (a b : string) : String c a +:+ b = String c (a +:+ b).
Proof. reflexivity. Qed.

Lemma string_drop_app (a b : string) : string_drop (String.length a) (a +:+ b) = b.
Proof. induction a as [|c a IH]; [reflexivity | exact IH]. Qed.

Lemma string_take_app (a b : string) : string_take (String.length a) (a +:+ b) = a.
Proof.
  induction a as [|c a IH]; [by destruct b|].
  rewrite append_cons. simpl. by f_equal.
Qed.

Lemma string_take_length (s : string) : string_take (String.length s) s = s.
Proof. induction s as [|c s IH]; simpl; [reflexivity | by f_equal]. Qed.

Lemma string_drop_zero (s : string) : string_drop 0 s = s.
Proof. by destruct s. Qed.

Lemma string_drop_all (n : nat) : forall s : string,
  (String.length s <= n)%nat -> string_drop n s = "".
Proof.
  induction n as [|n IH]; intros [|c s] H; simpl in *; try reflexivity; [lia|].
  apply IH. lia.
Qed.

Lemma prefix_app (p b : string) : String.prefix p (p +:+ b) = true.
Proof.
  induction p as [|c p IH]; [by destruct b|].
  rewrite append_cons. simpl.
  destruct (Ascii.ascii_dec c c); [exact IH | contradiction].
Qed.

Lemma prefix_split (p : string) : forall s : string,
  String.prefix p s = true -> s = p +:+ string_drop (String.length p) s.
Proof.
  induction p as [|c p IH]; intros [|d s] H; simpl in *; try reflexivity; try discriminate.
  destruct (Ascii.ascii_dec c d) as [->|]; [|discriminate].
  rewrite append_cons. f_equal. by apply IH.
Qed.

(** Reduce a [substr] or [substring] whose bounds are known. *)
Ltac bounds start len :=
  unfold substr, substring, default, from_option, id;
  rewrite ?append_length, ?Nat2Z.inj_add;
  match goal with
  | |- context [?x <? ?y] => destruct (Z.ltb_spec x y); [exfalso; lia|]
  | _ => idtac
  end;
  match goal with
  | |- string_take (Z.to_nat ?e) (string_drop (Z.to_nat ?f) _) = _ =>
      replace e with (Z.of_nat len) by lia;
      replace f with (Z.of_nat start) by lia;
      rewrite !Nat2Z.id
  | |- string_drop (Z.to_nat ?f) _ = _ =>
      replace f with (Z.of_nat start) by lia;
      rewrite !Nat2Z.id
  end.

(** [substr] from the end of a prefix, no length given: the rest. *)
Lemma substr_after (a b : string) :
  substr (a +:+ b) (Z.of_nat (String.length a)) None = b.
Proof.
  bounds (String.length a) (String.length b).
  rewrite string_drop_app. apply string_take_length.
Qed.

(** [substr] of the first [length a] code units. *)
Lemma substr_before (a b : string) :
  substr (a +:+ b) 0 (Some (Z.of_nat (String.length a))) = a.
Proof.
  bounds O (String.length a).
  apply string_take_app.
Qed.

Lemma substring_after (a b : string) :
  substring (a +:+ b) (Z.of_nat (String.length a)) = b.
Proof.
  bounds (String.length a) O.
  apply string_drop_app.
Qed.

Lemma slash_prefix c (s : string) :
  String.prefix "/" (String c s) = String.prefix "/" (String c "").
Proof.
  cbn [String.prefix].
  match goal with |- context [Ascii.ascii_dec ?x c] => destruct (Ascii.ascii_dec x c) end;
    [by destruct s | reflexivity].
Qed.

Lemma slash_prefix_true c : String.prefix "/" (String c "") = true -> String c "" = "/".
Proof. intros H. apply prefix_split in H. by rewrite H. Qed.

Lemma find_sub_cons pat c (s : string) :
  find_sub pat (String c s) =
    if String.prefix pat (String c s) then Some O else S <$> find_sub pat s.
Proof. reflexivity. Qed.

(** The first occurrence of ["/"] in [a/b] when [a] has none. *)
Lemma find_slash (a b : string) :
  includes a "/" = false ->
  find_sub "/" (a +:+ "/" +:+ b) = Some (String.length a).
Proof.
  unfold includes. induction a as [|c a IH]; intros H.
  - change ("" +:+ "/" +:+ b) with (String.append "/" b).
    destruct b; reflexivity.
  - rewrite find_sub_cons, slash_prefix in H.
    rewrite append_cons, find_sub_cons, slash_prefix.
    destruct (String.prefix "/" (String c "")); [discriminate|].
    rewrite IH; [reflexivity|]. by destruct (find_sub "/" a).
Qed.

(** A found position splits the string around the first slash. *)
Lemma find_slash_split : forall (s : string) (i : nat),
  find_sub "/" s = Some i ->
  exists a b, s = a +:+ "/" +:+ b /\ String.length a = i /\ includes a "/" = false.
Proof.
  induction s as [|c s IH]; intros i H; [discriminate|].
  rewrite find_sub_cons, slash_prefix in H.
  destruct (String.prefix "/" (String c "")) eqn:Hc.
  - injection H as <-. exists "", s. split; [|done].
    apply slash_prefix_true in Hc. by injection Hc as ->.
  - destruct (find_sub "/" s) as [j|] eqn:Hj; [|discriminate].
    injection H as <-. destruct (IH j eq_refl) as (a & b & -> & <- & Ha).
    exists (String c a), b. split; [reflexivity|]. split; [reflexivity|].
    unfold includes in *. rewrite find_sub_cons, slash_prefix, Hc.
    by destruct (find_sub "/" a).
Qed.

Lemma app_assoc_string (a b c : string) : (a +:+ b) +:+ c = a +:+ b +:+ c.
Proof. induction a as [|x a IH]; [reflexivity|]. rewrite !append_cons. by f_equal. Qed.

Lemma indexOf_slash (a b : string) :
  includes a "/" = false -> indexOf (a +:+ "/" +:+ b) "/" = Z.of_nat (String.length a).
Proof. intros H. unfold indexOf. by rewrite find_slash. Qed.

Lemma parseContentKey_at_first_slash (a b : string) :
  includes a "/" = false ->
  parseContentKey (a +:+ "/" +:+ b) = {| collection := a; slug := b |}.
Proof.
  intros H. unfold parseContentKey. rewrite indexOf_slash by assumption. f_equal.
  - apply substr_before.
  - replace (Z.of_nat (String.length a) + 1) with (Z.of_nat (String.length (a +:+ "/")))
      by (rewrite append_length; simpl; lia).
    rewrite <- (app_assoc_string a "/" b). apply substr_after.
Qed.

(** X1.  A status turned into a label is a CMS label, and reading it back
    gives the status. *)
Theorem status_label_round_trip (status : string) :
  isCMSLabel (statusToLabel status) = true /\
  labelToStatus (statusToLabel status) = status.
Proof.
  split.
  - apply prefix_app.
  - apply (substr_after NETLIFY_CMS_LABEL_PREFIX status).
Qed.

(** X2.  A label that passes [isCMSLabel] is rebuilt from its status. *)
Theorem cms_label_round_trip (label : string) :
  isCMSLabel label = true -> statusToLabel (labelToStatus label) = label.
Proof.
  intros H. apply prefix_split in H. rewrite H at 2.
  unfold statusToLabel. f_equal.
  rewrite H at 1. apply substr_after.
Qed.

(** X3.  [labelToStatus] does not look at the prefix: it drops the first
    twelve code units whatever they are, and gives the empty string for a
    label of twelve code units or fewer. *)
Theorem labelToStatus_drops_twelve_code_units (label : string) :
  (forall p rest, label = p +:+ rest -> String.length p = 12%nat ->
     labelToStatus label = rest) /\
  ((String.length label <= 12)%nat -> labelToStatus label = "").
Proof.
  split.
  - intros p rest -> Hp. unfold labelToStatus.
    change (String.length NETLIFY_CMS_LABEL_PREFIX) with 12%nat. rewrite <- Hp.
    apply substr_after.
  - intros Hl. unfold labelToStatus.
    change (String.length NETLIFY_CMS_LABEL_PREFIX) with 12%nat.
    bounds (String.length label) O.
    rewrite string_drop_all by lia. reflexivity.
Qed.

(** X4.  A content key made from a collection name without a slash is
    parsed back into that collection and slug, whatever the slug. *)
Theorem content_key_round_trip (collectionName slug : string) :
  includes collectionName "/" = false ->
  parseContentKey (generateContentKey collectionName slug) =
    {| collection := collectionName; slug := slug |}.
Proof. apply parseContentKey_at_first_slash. Qed.

(** X5.  A key that has a slash is split at its first one: the collection
    parsed has no slash, and collection and slug put the key together
    again. *)
Theorem parseContentKey_splits_at_the_first_slash (contentKey : string) :
  includes contentKey "/" = true ->
  includes (collection (parseContentKey contentKey)) "/" = false /\
  generateContentKey (collection (parseContentKey contentKey))
    (slug (parseContentKey contentKey)) = contentKey.
Proof.
  unfold includes at 1. destruct (find_sub "/" contentKey) as [i|] eqn:Hi; [|discriminate].
  intros _. destruct (find_slash_split contentKey i Hi) as (a & b & -> & _ & Ha).
  rewrite parseContentKey_at_first_slash by assumption. by split.
Qed.

(** X6.  A key without a slash: [indexOf] gives -1, the collection is empty
    and the slug is the whole key, so that putting them together again adds
    a slash in front. *)
Theorem parseContentKey_without_slash (contentKey : string) :
  includes contentKey "/" = false ->
  parseContentKey contentKey = {| collection := ""; slug := contentKey |} /\
  generateContentKey (collection (parseContentKey contentKey))
    (slug (parseContentKey contentKey)) = "/" +:+ contentKey.
Proof.
  intros H.
  assert (Hp : parseContentKey contentKey = {| collection := ""; slug := contentKey |}).
  { unfold parseContentKey, indexOf. unfold includes in H.
    destruct (find_sub "/" contentKey); [discriminate|]. f_equal.
    - bounds O O. reflexivity.
    - bounds O (String.length contentKey). apply string_take_length. }
  split; [exact Hp|]. by rewrite Hp.
Qed.

(** X7.  A slash in the collection name is not kept apart: what follows it
    is parsed as the beginning of the slug. *)
Theorem collection_with_slash_leaks_into_slug (a b slug : string) :
  includes a "/" = false ->
  parseContentKey (generateContentKey (a +:+ "/" +:+ b) slug) =
    {| collection := a; slug := b +:+ "/" +:+ slug |}.
Proof.
  intros H. unfold generateContentKey.
  rewrite app_assoc_string. change (("/" +:+ b) +:+ "/" +:+ slug)
    with ("/" +:+ b +:+ "/" +:+ slug).
  by apply parseContentKey_at_first_slash.
Qed.

(** X8.  The content key is read back from the branch made for it. *)
Theorem branch_round_trip (contentKey : string) :
  contentKeyFromBranch (branchFromContentKey contentKey) = contentKey.
Proof. apply (substring_after (CMS_BRANCH_PREFIX +:+ "/") contentKey). Qed.

(** X9.  A branch that starts with ["cms/"] is rebuilt from its content key;
    for any other branch of four code units or more the first four are
    dropped all the same. *)
Theorem cms_branch_round_trip (branch : string) :
  (startsWith branch "cms/" = true ->
   branchFromContentKey (contentKeyFromBranch branch) = branch) /\
  (forall p rest, branch = p +:+ rest -> String.length p = 4%nat ->
     contentKeyFromBranch branch = rest).
Proof.
  split.
  - intros H. apply prefix_split in H. rewrite H at 2.
    change (branchFromContentKey (contentKeyFromBranch branch))
      with ("cms/" +:+ contentKeyFromBranch branch).
    f_equal. rewrite H at 1. apply (substring_after "cms/").
  - intros p rest -> Hp. unfold contentKeyFromBranch.
    change (String.length (CMS_BRANCH_PREFIX +:+ "/")) with 4%nat. rewrite <- Hp.
    apply substring_after.
Qed.

(** X10.  From the branch of an entry back to its collection and slug, for
    a collection name without a slash. *)
Theorem branch_to_collection_and_slug (collectionName slug : string) :
  includes collectionName "/" = false ->
  parseContentKey
    (contentKeyFromBranch (branchFromContentKey (generateContentKey collectionName slug))) =
    {| collection := collectionName; slug := slug |}.
Proof.
  intros H. unfold contentKeyFromBranch, branchFromContentKey.
  rewrite <- app_assoc_string, substring_after.
  by apply parseContentKey_at_first_slash.
Qed.

(** ** Deploy previews *)

Lemma find_sub_unfold pat (s : string) :
  find_sub pat s =
    if String.prefix pat s then Some O
    else match s with
         | EmptyString => None
         | String _ s' => S <$> find_sub pat s'
         end.
Proof. by destruct s. Qed.

Lemma includes_occurrence (s pat : string) :
  includes s pat = true <-> exists a b, s = a +:+ pat +:+ b.
Proof.
  unfold includes. split.
  - induction s as [|c s IH]; rewrite find_sub_unfold.
    + destruct (String.prefix pat "") eqn:Hp; [|discriminate].
      intros _. exists "", (string_drop (String.length pat) ""). by apply prefix_split.
    + destruct (String.prefix pat (String c s)) eqn:Hp.
      * intros _. exists "", (string_drop (String.length pat) (String c s)).
        by apply prefix_split.
      * destruct (find_sub pat s); [|discriminate]. intros _.
        destruct (IH eq_refl) as (a & b & ->). by exists (String c a), b.
  - intros (a & b & ->). induction a as [|c a IH]; rewrite find_sub_unfold.
    + change ("" +:+ pat +:+ b) with (pat +:+ b). by rewrite prefix_app.
    + rewrite append_cons.
      destruct (String.prefix pat (String c (a +:+ pat +:+ b))); [reflexivity|].
      by destruct (find_sub pat (a +:+ pat +:+ b)).
Qed.

Lemma find_first {A} (f : A -> bool) (l : list A) :
  match List.find f l with
  | Some x => exists pre post, l = pre ++ x :: post /\ f x = true /\
                               forall y, y ∈ pre -> f y = false
  | None => forall y, y ∈ l -> f y = false
  end.
Proof.
  induction l as [|a l IH]; cbn [List.find].
  - intros y Hy. by apply elem_of_nil in Hy.
  - destruct (f a) eqn:Ha.
    + exists [], l. repeat split; [assumption|]. intros y Hy. by apply elem_of_nil in Hy.
    + destruct (List.find f l) as [x|].
      * destruct IH as (pre & post & -> & Hx & Hpre).
        exists (a :: pre), post. repeat split; [assumption|].
        intros y [->|Hy]%elem_of_cons; [assumption | by apply Hpre].
      * intros y [->|Hy]%elem_of_cons; [assumption | by apply IH].
Qed.

Lemma isPreviewContext_explicit (c p : string) :
  p <> "" -> isPreviewContext c p = true <-> c = p.
Proof.
  intros Hp. unfold isPreviewContext.
  destruct (String.eqb_spec p ""); [contradiction|]. cbn [negb].
  by destruct (String.eqb_spec c p).
Qed.

Lemma isPreviewContext_inferred (c : string) :
  isPreviewContext c "" = includes c "deploy".
Proof. unfold isPreviewContext. cbn. apply orb_false_r. Qed.

(** X11.  When no preview context is given (the empty string), a status
    context counts as a deploy preview exactly when ["deploy"] occurs
    somewhere in it. *)
Theorem preview_is_inferred_from_the_keyword (c : string) :
  isPreviewContext c "" = true <-> exists a b, c = a +:+ "deploy" +:+ b.
Proof. rewrite isPreviewContext_inferred. apply includes_occurrence. Qed.

(** X12.  With a preview context given, [getPreviewStatus] returns the first
    status whose context is exactly that one, and nothing when there is
    none: contexts that only contain ["deploy"] are not considered. *)
Theorem explicit_preview_context_is_matched_exactly statuses (previewContext : string) :
  previewContext <> "" ->
  match getPreviewStatus statuses previewContext with
  | Some st =>
      exists pre post, statuses = pre ++ st :: post /\ context st = previewContext /\
                       forall x, x ∈ pre -> context x <> previewContext
  | None => forall x, x ∈ statuses -> context x <> previewContext
  end.
Proof.
  intros Hp. unfold getPreviewStatus.
  pose proof (find_first (fun st => isPreviewContext (context st) previewContext) statuses) as H.
  destruct (List.find _ statuses) as [st|].
  - destruct H as (pre & post & -> & Hst & Hpre). exists pre, post.
    repeat split; [by apply isPreviewContext_explicit|].
    intros x Hx Heq. apply Hpre in Hx.
    apply (isPreviewContext_explicit _ _ Hp) in Heq. congruence.
  - intros x Hx Heq. apply H in Hx.
    apply (isPreviewContext_explicit _ _ Hp) in Heq. congruence.
Qed.

(** X13.  Without a preview context, [getPreviewStatus] returns the first
    status whose context contains ["deploy"], whatever its state, and
    nothing when no context does. *)
Theorem preview_status_is_the_first_deploy_status statuses :
  match getPreviewStatus statuses "" with
  | Some st =>
      exists pre post, statuses = pre ++ st :: post /\
                       includes (context st) "deploy" = true /\
                       forall x, x ∈ pre -> includes (context x) "deploy" = false
  | None => forall x, x ∈ statuses -> includes (context x) "deploy" = false
  end.
Proof.
  unfold getPreviewStatus.
  pose proof (find_first (fun st => isPreviewContext (context st) "") statuses) as H.
  destruct (List.find _ statuses) as [st|].
  - destruct H as (pre & post & -> & Hst & Hpre). exists pre, post.
    rewrite isPreviewContext_inferred in Hst. repeat split; [assumption|].
    intros x Hx. rewrite <- isPreviewContext_inferred. by apply Hpre.
  - intros x Hx. rewrite <- isPreviewContext_inferred. by apply H.
Qed.

(** ** The dispatcher: bounds, waiting, transports *)

Section DispatcherBounds.

Variable performRequest : Transport.
Variable api : API.
Variable req : ApiRequest.

Abbreviation answer' := (answer performRequest api req).
Abbreviation request := (requestWithBackoff performRequest api req).

Lemma after_failures_now k : forall attempt w,
  now (after_failures performRequest api req k attempt w) =
    now w + fold_right Z.add 0 (backoff attempt k).
Proof.
  induction k as [|k IH]; intros attempt w; cbn [after_failures backoff fold_right]; [lia|].
  rewrite IH. unfold after_failure. cbn [now]. lia.
Qed.

(** X14.  A call whose every attempt fails ends, for every integer attempt
    number from -1000 up that it is started with: it raises the error of its
    last attempt after [max 1 (7 - attempt)] dispatches, each failure but
    the last followed by its cooldown.  Started past attempt 5, it raises
    the first failure at once and installs no cooldown.  (In this range the
    arithmetic on the attempt number is exact in JavaScript's numbers, and
    the delays fit the 32 bits of [setTimeout].) *)
Theorem persistent_failure_ends_after_bounded_attempts attempt w :
  -1000 <= attempt ->
  idle w ->
  (forall i, fails (answer' w i) = true) ->
  let k := Z.to_nat (6 - attempt) in
  exists w',
    request attempt w = (Threw (error_of (answer' w k)), w') /\
    length (dispatched (since w w')) = S k /\
    timeouts (since w w') = backoff attempt k /\
    idle w'.
Proof.
  intros _ Hw Hf k.
  assert (Hrun : request attempt w =
            (Threw (error_of (answer' w k)),
             after_last performRequest api req
               (after_failures performRequest api req k attempt w))).
  { destruct (Z_le_gt_dec attempt 6) as [Hle|Hgt].
    - apply run_until_give_up; [assumption | subst k; lia | intros; apply Hf].
    - replace k with O by (subst k; lia). cbn [after_failures].
      apply give_up_step; [apply Hw | lia | apply Hf]. }
  eexists. split; [exact Hrun|].
  destruct (run_trace performRequest api req k attempt w)
    as (evs & Ht & Hto & Hlm & Hde & Hdi & Hone).
  rewrite (since_app _ _ _ Ht), Hto, Hdi, length_fmap, length_seq.
  repeat split; apply after_last_idle, after_failures_idle, Hw.
Qed.

(** X15.  Giving up takes 55 seconds of cooldown: a call from attempt 1
    whose six attempts fail raises its error 1 + 4 + 9 + 16 + 25 seconds
    after it started. *)
Theorem giving_up_takes_55_seconds w :
  idle w ->
  (forall i, (i < 6)%nat -> fails (answer' w i) = true) ->
  exists e w', request 1 w = (Threw e, w') /\ now w' = now w + 55000.
Proof.
  intros Hw Hf. eexists _, _. split.
  - apply (run_until_give_up _ _ _ 5 1 w); [assumption | reflexivity |].
    intros i Hi. apply Hf. lia.
  - cbn [after_last now]. rewrite after_failures_now. reflexivity.
Qed.

(** X16.  The sixth attempt is a real one: when the transport fails five
    times and then succeeds, the call resolves with the response, after the
    five cooldowns. *)
Theorem sixth_attempt_can_succeed r w :
  idle w ->
  (forall i, (i < 5)%nat -> fails (answer' w i) = true) ->
  answer' w 5 = Resolves r -> status r <> 429 ->
  exists w',
    request 1 w = (Returned r, w') /\
    length (dispatched (since w w')) = 6%nat /\
    timeouts (since w w') = [1000; 4000; 9000; 16000; 25000] /\
    now w' = now w + 55000 /\
    idle w'.
Proof.
  intros Hw Hf Hr Hs. eexists. split.
  - apply (run_until_success _ _ _ 5 r 1 w); (assumption || lia).
  - destruct (run_trace performRequest api req 5 1 w)
      as (evs & Ht & Hto & Hlm & Hde & Hdi & Hone).
    rewrite (since_app _ _ _ Ht), Hto, Hdi, length_fmap, length_seq.
    split; [reflexivity|]. split; [reflexivity|].
    split; [cbn [after_last now]; rewrite after_failures_now; reflexivity|].
    apply after_last_idle, after_failures_idle, Hw.
Qed.

End DispatcherBounds.

Lemma requestWithBackoff_same_collaborators p1 p2 api1 api2 req :
  buildRequest api1 = buildRequest api2 ->
  default p1 (requestFunction api1) = default p2 (requestFunction api2) ->
  forall n attempt, Z.to_nat (6 - attempt) = n ->
    requestWithBackoff p1 api1 req attempt = requestWithBackoff p2 api2 req attempt.
Proof.
  intros Hb Hd.
  assert (Htry : try_block p1 api1 req = try_block p2 api2 req).
  { unfold try_block, decorate. by rewrite Hb, Hd. }
  induction n as [|n IH]; intros attempt Hn;
    rewrite (requestWithBackoff_eq p1 api1 req attempt),
      (requestWithBackoff_eq p2 api2 req attempt), Htry.
  - replace (attempt <=? 5) with false by (symmetry; apply Z.leb_gt; lia). reflexivity.
  - destruct (Z.leb_spec attempt 5); [|reflexivity].
    rewrite (IH (attempt + 1)) by lia. reflexivity.
Qed.

(** X18.  The transport of the handle, when it has one, replaces the default
    transport altogether: the call is the same whatever the default is; and
    a handle without one behaves as a handle that has the default as its
    own. *)
Theorem handle_transport_replaces_the_default (p1 p2 : Transport) (api : API)
    (req : ApiRequest) (attempt : Z) :
  (forall t : Transport, requestFunction api = Some t ->
     requestWithBackoff p1 api req attempt = requestWithBackoff p2 api req attempt) /\
  (requestFunction api = None ->
     requestWithBackoff p1 api req attempt =
     requestWithBackoff p2 {| buildRequest := buildRequest api; requestFunction := Some p1 |}
       req attempt).
Proof.
  split.
  - intros t Ht.
    apply (requestWithBackoff_same_collaborators p1 p2 api api req eq_refl)
      with (n := Z.to_nat (6 - attempt)); [by rewrite Ht | reflexivity].
  - intros Hnone.
    apply (requestWithBackoff_same_collaborators p1 p2 api
             {| buildRequest := buildRequest api; requestFunction := Some p1 |} req eq_refl)
      with (n := Z.to_nat (6 - attempt)); [by rewrite Hnone | reflexivity].
Qed.

(** ** The cache: failures, frames, shared keys *)



(** X20.  The three kinds of key share one name space.  Text cached for the
    id ["<id>.meta"] lies under the metadata key of [<id>] and is what
    [readFileMetadata] then returns, without fetching; text cached for
    ["<id>.blob"] is what [readFile] then returns as the binary content of
    [<id>]. *)
Theorem suffixed_id_shares_the_key_of_another_kind id content s :
  truthy (OfContent content) = true ->
  (truthy (default Null (store s !! ("gh." +:+ id +:+ ".meta"))) = false ->
   forall fetchMetadata,
     let s1 := snd (readFile (Id (id +:+ ".meta")) (Returned content) true s) in
     readFileMetadata id fetchMetadata s1 =
       (Returned (OfContent content),
        {| store := store s1; calls := calls s1 ++ [GetItem ("gh." +:+ id +:+ ".meta")] |})) /\
  (id <> "" ->
   truthy (default Null (store s !! ("gh." +:+ id +:+ ".blob"))) = false ->
   forall fetchContent,
     let s1 := snd (readFile (Id (id +:+ ".blob")) (Returned content) true s) in
     readFile (Id id) fetchContent false s1 =
       (Returned (OfContent content),
        {| store := store s1; calls := calls s1 ++ [GetItem ("gh." +:+ id +:+ ".blob")] |})).
Proof.
  intros Hc.
  assert (Hne : forall suffix : string, suffix <> "" -> id +:+ suffix <> "").
  { intros suffix Hs H. apply (f_equal String.length) in H.
    rewrite append_length in H. destruct suffix; [contradiction | simpl in H; lia]. }
  split.
  - intros Hs fetchMetadata s1. subst s1.
    rewrite (readFile_miss (Id (id +:+ ".meta")) true ("gh." +:+ id +:+ ".meta"));
      [| by apply (readFile_key_nonempty (id +:+ ".meta") true), Hne | exact Hs].
    cbn [snd]. rewrite readFileMetadata_hit;
      change (getFileMetadataKey id) with ("gh." +:+ id +:+ ".meta");
      cbn [store]; rewrite lookup_insert_eq; [reflexivity | exact Hc].
  - intros Hid Hs fetchContent s1. subst s1.
    rewrite (readFile_miss (Id (id +:+ ".blob")) true ("gh." +:+ id +:+ ".blob"));
      [| by apply (readFile_key_nonempty (id +:+ ".blob") true), Hne | exact Hs].
    cbn [snd]. rewrite (readFile_hit (Id id) false ("gh." +:+ id +:+ ".blob"));
      [| by apply (readFile_key_nonempty id false) |];
      cbn [store]; rewrite lookup_insert_eq; [reflexivity | exact Hc].
Qed.

(** X21.  A call changes the store under its own key at most: whatever the
    fetch gives, every other key holds what it held.  And within one kind
    different ids have different keys. *)
Theorem only_its_own_key_is_written id isText fetchContent mid fetchMetadata s (other : string) :
  (readFile_key id isText <> Some other ->
   store (snd (readFile id fetchContent isText s)) !! other = store s !! other) /\
  (getFileMetadataKey mid <> other ->
   store (snd (readFileMetadata mid fetchMetadata s)) !! other = store s !! other) /\
  (forall id1 id2 : string,
     ("gh." +:+ id1 = "gh." +:+ id2 -> id1 = id2) /\
     ("gh." +:+ id1 +:+ ".blob" = "gh." +:+ id2 +:+ ".blob" -> id1 = id2) /\
     ("gh." +:+ id1 +:+ ".meta" = "gh." +:+ id2 +:+ ".meta" -> id1 = id2)).
Proof.
  assert (Hinj : forall (a b suffix : string), a +:+ suffix = b +:+ suffix -> a = b).
  { induction a as [|x a IH]; intros [|y b] suffix H.
    - reflexivity.
    - apply (f_equal String.length) in H. rewrite !append_length in H.
      simpl in H. lia.
    - apply (f_equal String.length) in H. rewrite !append_length in H.
      simpl in H. lia.
    - rewrite !append_cons in H. injection H as -> H. f_equal. by apply (IH b suffix). }
  split; [|split].
  - intros Hk. unfold readFile, bind, getItem, invoke, setItem, ret, called.
    destruct (readFile_key id isText) as [key|].
    + destruct (truthy (default Null (store s !! key))); [reflexivity|].
      destruct fetchContent; cbn [snd store]; try reflexivity.
      apply lookup_insert_ne. congruence.
    + cbn [truthy]. destruct fetchContent; reflexivity.
  - intros Hk. unfold readFileMetadata, bind, getItem, invoke, setItem, ret, called.
    destruct (truthy (default Null (store s !! getFileMetadataKey mid))); [reflexivity|].
    destruct fetchMetadata; cbn [snd store]; try reflexivity.
    by apply lookup_insert_ne.
  - intros id1 id2. split; [|split]; intros H; injection H as H.
    + exact H.
    + by apply (Hinj id1 id2 ".blob").
    + by apply (Hinj id1 id2 ".meta").
Qed.

(** X22.  Metadata is fetched once: after a miss, whatever the id, the next
    call returns the stored record and invokes no fetch function. *)
Theorem metadata_is_fetched_once id metadata fetchAgain s :
  truthy (default Null (store s !! ("gh." +:+ id +:+ ".meta"))) = false ->
  let key := "gh." +:+ id +:+ ".meta" in
  let s1 := {| store := <[key := OfMetadata metadata]> (store s);
               calls := calls s ++ [GetItem key; Fetch; SetItem key (OfMetadata metadata)] |} in
  readFileMetadata id (Returned metadata) s = (Returned (OfMetadata metadata), s1) /\
  readFileMetadata id fetchAgain s1 =
    (Returned (OfMetadata metadata),
     {| store := store s1; calls := calls s1 ++ [GetItem key] |}).
Proof.
  intros Hs key s1. split.
  - by apply readFileMetadata_miss.
  - rewrite readFileMetadata_hit; change (getFileMetadataKey id) with key;
      subst s1; cbn [store]; rewrite lookup_insert_eq; reflexivity.
Qed.

(** X23.  Binary content is fetched once even when it is empty: a blob is
    an object, truthy whatever its bytes, so that after a miss the next
    call in binary mode returns the stored blob and invokes no fetch
    function. *)
Theorem blob_is_fetched_once_even_when_empty id bytes fetchAgain s :
  id <> "" ->
  truthy (default Null (store s !! ("gh." +:+ id +:+ ".blob"))) = false ->
  let key := "gh." +:+ id +:+ ".blob" in
  let s1 := {| store := <[key := OfContent (Blob bytes)]> (store s);
               calls := calls s ++ [GetItem key; Fetch; SetItem key (OfContent (Blob bytes))] |} in
  readFile (Id id) (Returned (Blob bytes)) false s = (Returned (OfContent (Blob bytes)), s1) /\
  readFile (Id id) fetchAgain false s1 =
    (Returned (OfContent (Blob bytes)),
     {| store := store s1; calls := calls s1 ++ [GetItem key] |}).
Proof.
  intros Hid Hs key s1. split.
  - apply readFile_miss; [by apply (readFile_key_nonempty id false) | exact Hs].
  - rewrite (readFile_hit (Id id) false key); [| by apply (readFile_key_nonempty id false) |];
      subst s1; cbn [store]; rewrite lookup_insert_eq; reflexivity.
Qed.

(** *** Instances *)

Lemma draft_label_round_trip : statusToLabel (labelToStatus "netlify-cms/draft") = "netlify-cms/draft".
Proof. apply (cms_label_round_trip "netlify-cms/draft"). reflexivity. Defined.

Lemma labelToStatus_of_other_labels :
  labelToStatus "enhancement/draft" = "draft" /\ labelToStatus "bug" = "".
Proof.
  split.
  - apply (labelToStatus_drops_twelve_code_units "enhancement/draft" ) with (p := "enhancement/");
      reflexivity.
  - apply (labelToStatus_drops_twelve_code_units "bug"). simpl. lia.
Defined.

Lemma posts_hello_round_trip :
  parseContentKey (generateContentKey "posts" "2020/hello") =
    {| collection := "posts"; slug := "2020/hello" |}.
Proof. apply (content_key_round_trip "posts" "2020/hello"). reflexivity. Defined.

Lemma posts_hello_is_split_at_the_first_slash :
  includes (collection (parseContentKey "posts/2020/hello")) "/" = false /\
  generateContentKey (collection (parseContentKey "posts/2020/hello"))
    (slug (parseContentKey "posts/2020/hello")) = "posts/2020/hello".
Proof. apply (parseContentKey_splits_at_the_first_slash "posts/2020/hello"). reflexivity. Defined.

Lemma key_without_slash_has_no_collection :
  parseContentKey "hello" = {| collection := ""; slug := "hello" |} /\
  generateContentKey (collection (parseContentKey "hello"))
    (slug (parseContentKey "hello")) = "/hello".
Proof. apply (parseContentKey_without_slash "hello"). reflexivity. Defined.

Lemma nested_collection_leaks_into_slug :
  parseContentKey (generateContentKey "docs/guides" "intro") =
    {| collection := "docs"; slug := "guides/intro" |}.
Proof. apply (collection_with_slash_leaks_into_slug "docs" "guides" "intro"). reflexivity. Defined.

Lemma cms_branch_round_trip_posts :
  branchFromContentKey (contentKeyFromBranch "cms/posts/hello") = "cms/posts/hello" /\
  contentKeyFromBranch "dev/posts/hello" = "posts/hello".
Proof.
  split.
  - apply (cms_branch_round_trip "cms/posts/hello"). reflexivity.
  - apply (cms_branch_round_trip "dev/posts/hello") with (p := "dev/"); reflexivity.
Defined.

Lemma branch_to_posts_hello :
  parseContentKey (contentKeyFromBranch (branchFromContentKey (generateContentKey "posts" "hello"))) =
    {| collection := "posts"; slug := "hello" |}.
Proof. apply (branch_to_collection_and_slug "posts" "hello"). reflexivity. Defined.

Lemma explicit_context_skips_deploy_statuses :
  match
    getPreviewStatus
      [{| context := "netlify/deploy-preview"; target_url := "https://a"; state := Success |};
       {| context := "ci/preview"; target_url := "https://b"; state := Other |}]
      "ci/preview"
  with
  | Some st =>
      exists pre post,
        [{| context := "netlify/deploy-preview"; target_url := "https://a"; state := Success |};
         {| context := "ci/preview"; target_url := "https://b"; state := Other |}] =
          pre ++ st :: post /\
        context st = "ci/preview" /\
        forall x, x ∈ pre -> context x <> "ci/preview"
  | None =>
      forall x,
        x ∈ [{| context := "netlify/deploy-preview"; target_url := "https://a";
                state := Success |};
             {| context := "ci/preview"; target_url := "https://b"; state := Other |}] ->
        context x <> "ci/preview"
  end.
Proof.
  apply (explicit_preview_context_is_matched_exactly
    [{| context := "netlify/deploy-preview"; target_url := "https://a"; state := Success |};
     {| context := "ci/preview"; target_url := "https://b"; state := Other |}]
    "ci/preview").
  discriminate.
Defined.

Lemma persistent_failure_from_attempt_0 :
  exists w',
    requestWithBackoff (flaky 0) (plain (always (too_many None))) (ReqString "/repos") 0 world0 =
      (Threw (NewError "Too many requests"), w') /\
    length (dispatched (since world0 w')) = 7%nat /\
    timeouts (since world0 w') = [0; 1000; 4000; 9000; 16000; 25000] /\
    idle w'.
Proof.
  apply (persistent_failure_ends_after_bounded_attempts (flaky 0)
           (plain (always (too_many None))) (ReqString "/repos") 0 world0).
  - lia.
  - split; reflexivity.
  - intros i. reflexivity.
Defined.

Lemma giving_up_on_throttling_takes_55_seconds :
  exists e w',
    requestWithBackoff (flaky 0) (plain (always (too_many None))) (ReqString "/repos") 1 world0 =
      (Threw e, w') /\
    now w' = 55000.
Proof.
  apply (giving_up_takes_55_seconds (flaky 0) (plain (always (too_many None)))
           (ReqString "/repos") world0).
  - split; reflexivity.
  - intros i _. reflexivity.
Defined.

Lemma sixth_attempt_succeeds_after_five_failures :
  exists w',
    requestWithBackoff (flaky 5) (plain (flaky 5)) (ReqString "/repos") 1 world0 =
      (Returned ok, w') /\
    length (dispatched (since world0 w')) = 6%nat /\
    timeouts (since world0 w') = [1000; 4000; 9000; 16000; 25000] /\
    now w' = 55000 /\
    idle w'.
Proof.
  apply (sixth_attempt_can_succeed (flaky 5) (plain (flaky 5)) (ReqString "/repos") ok world0).
  - split; reflexivity.
  - intros [|[|[|[|[|i]]]]] Hi; try reflexivity. lia.
  - reflexivity.
  - discriminate.
Defined.

Lemma handle_transport_replaces_the_default_flaky :
  requestWithBackoff (flaky 0) (plain (flaky 2)) (ReqString "/repos") 1 =
  requestWithBackoff (always not_found) (plain (flaky 2)) (ReqString "/repos") 1.
Proof.
  apply (handle_transport_replaces_the_default (flaky 0) (always not_found)
           (plain (flaky 2)) (ReqString "/repos") 1) with (t := flaky 2).
  reflexivity.
Defined.


Lemma text_of_abc123_meta_is_served_as_metadata :
  let s1 := snd (readFile (Id "abc123.meta") (Returned (Text "# Title")) true cache0) in
  readFileMetadata "abc123" (Returned {| author := "ada"; updatedOn := "2020-01-01" |}) s1 =
    (Returned (OfContent (Text "# Title")),
     {| store := store s1; calls := calls s1 ++ [GetItem "gh.abc123.meta"] |}).
Proof.
  apply (suffixed_id_shares_the_key_of_another_kind "abc123" (Text "# Title") cache0);
    reflexivity.
Defined.

Lemma text_read_leaves_the_blob_key_alone :
  store (snd (readFile (Id "abc123") (Returned (Text "# Title")) true cache0))
    !! "gh.abc123.blob" = store cache0 !! "gh.abc123.blob".
Proof.
  apply (only_its_own_key_is_written (Id "abc123") true (Returned (Text "# Title"))
           "abc123" Pending cache0 "gh.abc123.blob").
  discriminate.
Defined.

Lemma metadata_of_abc123_is_fetched_once :
  let m := {| author := "ada"; updatedOn := "2020-01-01" |} in
  let s1 := {| store := {["gh.abc123.meta" := OfMetadata m]};
               calls := [GetItem "gh.abc123.meta"; Fetch;
                         SetItem "gh.abc123.meta" (OfMetadata m)] |} in
  readFileMetadata "abc123" (Returned m) cache0 = (Returned (OfMetadata m), s1) /\
  readFileMetadata "abc123" Pending s1 =
    (Returned (OfMetadata m),
     {| store := store s1; calls := calls s1 ++ [GetItem "gh.abc123.meta"] |}).
Proof.
  intros m s1.
  apply (metadata_is_fetched_once "abc123" m Pending cache0). reflexivity.
Defined.

Lemma empty_blob_is_fetched_once :
  let s1 := {| store := {["gh.abc123.blob" := OfContent (Blob [])]};
               calls := [GetItem "gh.abc123.blob"; Fetch;
                         SetItem "gh.abc123.blob" (OfContent (Blob []))] |} in
  readFile (Id "abc123") (Returned (Blob [])) false cache0 =
    (Returned (OfContent (Blob [])), s1) /\
  readFile (Id "abc123") Pending false s1 =
    (Returned (OfContent (Blob [])),
     {| store := store s1; calls := calls s1 ++ [GetItem "gh.abc123.blob"] |}).
Proof.
  intros s1.
  apply (blob_is_fetched_once_even_when_empty "abc123" [] Pending cache0);
    [discriminate | reflexivity].
Defined.
